(** * mpvipc: a client for mpv's JSON IPC socket

    A shallow embedding of [mpvipc.go] and the properties of its request
    correlation, event fan-out and connection life cycle.

    Layout: the wire codec, the [Connection] record and the effect monad
    its methods run in, the methods themselves, histories of calls, the
    notions the statements use, and then the theorems.

    The package leaves JSON to Go's [encoding/json].  The codec below is a
    model of the part of that library the package relies on: the JSON
    grammar with the library's limit on nesting, and [Unmarshal] into the
    package's two structs with Go's rules for member names, [null], type
    mismatches, [uint] fields, numbers beyond the range of [float64], bytes
    that are not UTF-8 and repeated members.  Two things are kept apart
    from the library's representation: a number that is in range is its
    literal, not the [float64] nearest to it, and a map is the list of its
    entries. *)

From Stdlib Require Import Ascii String NArith ZArith List Bool Lia DecimalString.
From stdpp Require Import gmap list fin_maps strings.
Import ListNotations.

Set Warnings "-register-all".

Local Open Scope N_scope.

(** ** Bytes and text

    A Go [[]byte] or [string] is a Rocq [string]: a list of 8-bit
    characters. *)

(** The double quote character, which string literals cannot hold. *)
Definition dquote : ascii := ascii_of_N 34.

(** [dq s] is [s] with every apostrophe replaced by a double quote, so that
    JSON text can be written as a literal: [dq "{'event':'pause'}"]. *)
Fixpoint dq (s : string) : string :=
  match s with
  | EmptyString => EmptyString
  | String c r => String (if Ascii.eqb c "'" then dquote else c) (dq r)
  end.

Definition code (c : ascii) : N := N_of_ascii c.

(** Go's [uint] on the 64-bit platforms mpv runs on. *)
Definition uintBits : N := 64.
Definition uintMod : N := 2 ^ uintBits.

(** [x + 1] on a [uint]: the increment wraps around. *)
Definition uint_succ (x : N) : N := (x + 1) mod uintMod.

(** ** JSON values

    The payload of a result ([Data interface{}]) is kept as the JSON value
    the decoder read.  [JNull] is Go's [nil]; a number is its literal. *)
Inductive json : Type :=
| JNull
| JBool (b : bool)
| JNumber (lit : string)
| JString (s : string)
| JArray (elems : list json)
| JObject (members : list (string * json)).

(** ** Lexical analysis *)

Inductive token : Type :=
| TLBrace | TRBrace | TLBracket | TRBracket | TColon | TComma
| TString (s : string)
| TScalar (j : json).

(** What a string literal is made of while it is being read: plain bytes
    and the 16-bit units of [\uXXXX] escapes (which pair up into
    surrogates only once the whole literal is known). *)
Inductive sitem : Type :=
| SByte (c : ascii)
| SUnit (u : N).

Inductive lexmode : Type :=
| LIdle
| LWord (acc : list ascii)
| LStr (acc : list sitem)
| LEsc (acc : list sitem)
| LHex (acc : list sitem) (digits : nat) (v : N).

Definition is_space (c : ascii) : bool :=
  let n := code c in (n =? 32) || (n =? 9) || (n =? 10) || (n =? 13).

Definition is_digit (c : ascii) : bool :=
  let n := code c in (48 <=? n) && (n <=? 57).

Definition is_letter (c : ascii) : bool :=
  let n := code c in
  ((65 <=? n) && (n <=? 90)) || ((97 <=? n) && (n <=? 122)).

(** Characters of numbers and of the names [true], [false], [null]. *)
Definition is_word (c : ascii) : bool :=
  is_digit c || is_letter c || Ascii.eqb c "+" || Ascii.eqb c "-" || Ascii.eqb c ".".

Definition hex_value (c : ascii) : option N :=
  let n := code c in
  if is_digit c then Some (n - 48)
  else if (97 <=? n) && (n <=? 102) then Some (n - 87)
  else if (65 <=? n) && (n <=? 70) then Some (n - 55)
  else None.

(** The grammar of a JSON number, as a finite automaton. *)
Inductive numstate : Type :=
| NStart | NMinus | NZero | NInt | NDot | NFrac | NE | NESign | NExp | NBad.

Definition num_step (st : numstate) (c : ascii) : numstate :=
  let d := is_digit c in
  let z := Ascii.eqb c "0" in
  let dot := Ascii.eqb c "." in
  let e := Ascii.eqb c "e" || Ascii.eqb c "E" in
  let sign := Ascii.eqb c "+" || Ascii.eqb c "-" in
  match st with
  | NStart => if Ascii.eqb c "-" then NMinus else if z then NZero else if d then NInt else NBad
  | NMinus => if z then NZero else if d then NInt else NBad
  | NZero => if dot then NDot else if e then NE else NBad
  | NInt => if d then NInt else if dot then NDot else if e then NE else NBad
  | NDot => if d then NFrac else NBad
  | NFrac => if d then NFrac else if e then NE else NBad
  | NE => if sign then NESign else if d then NExp else NBad
  | NESign => if d then NExp else NBad
  | NExp => if d then NExp else NBad
  | NBad => NBad
  end.

Definition valid_number (w : list ascii) : bool :=
  match fold_left num_step w NStart with
  | NZero | NInt | NFrac | NExp => true
  | _ => false
  end.

(** A maximal run of word characters is a name or a number. *)
Definition word_value (w : list ascii) : option json :=
  let s := string_of_list_ascii w in
  if String.eqb s "null" then Some JNull
  else if String.eqb s "true" then Some (JBool true)
  else if String.eqb s "false" then Some (JBool false)
  else if valid_number w then Some (JNumber s)
  else None.

(** UTF-8 encoding of a code point. *)
Definition utf8 (cp : N) : list ascii :=
  let b := ascii_of_N in
  if cp <? 128 then [b cp]
  else if cp <? 2048 then [b (192 + cp / 64); b (128 + cp mod 64)]
  else if cp <? 65536 then
    [b (224 + cp / 4096); b (128 + (cp / 64) mod 64); b (128 + cp mod 64)]
  else
    [b (240 + cp / 262144); b (128 + (cp / 4096) mod 64);
     b (128 + (cp / 64) mod 64); b (128 + cp mod 64)].

Definition is_high_surrogate (u : N) : bool := (55296 <=? u) && (u <? 56320).
Definition is_low_surrogate (u : N) : bool := (56320 <=? u) && (u <? 57344).

(** Whether the item is a plain byte between [lo] and [hi]. *)
Definition byte_within (lo hi : N) (i : option sitem) : bool :=
  match i with
  | Some (SByte c) => (lo <=? code c) && (code c <=? hi)
  | _ => false
  end.

(** [utf8.DecodeRune] at a byte [b0] of 128 or more, followed by [r]: the
    number of bytes that follow [b0] in a well-formed sequence, or [None]
    when there is none (a stray continuation byte, a sequence cut short,
    an overlong form, a surrogate, a code point beyond U+10FFFF). *)
Definition continuation (b0 : N) (r : list sitem) : option nat :=
  let b1 := nth_error r 0 in
  let b2 := nth_error r 1 in
  let b3 := nth_error r 2 in
  let cont := byte_within 128 191 in
  if (194 <=? b0) && (b0 <=? 223) then
    if cont b1 then Some 1%nat else None
  else if b0 =? 224 then
    if byte_within 160 191 b1 && cont b2 then Some 2%nat else None
  else if ((225 <=? b0) && (b0 <=? 236)) || (b0 =? 238) || (b0 =? 239) then
    if cont b1 && cont b2 then Some 2%nat else None
  else if b0 =? 237 then
    if byte_within 128 159 b1 && cont b2 then Some 2%nat else None
  else if b0 =? 240 then
    if byte_within 144 191 b1 && cont b2 && cont b3 then Some 3%nat else None
  else if (241 <=? b0) && (b0 <=? 243) then
    if cont b1 && cont b2 && cont b3 then Some 3%nat else None
  else if b0 =? 244 then
    if byte_within 128 143 b1 && cont b2 && cont b3 then Some 3%nat else None
  else None.

(** The bytes of a string literal, as [unquote] gives them: a byte that
    is not part of well-formed UTF-8 becomes U+FFFD, a surrogate pair of
    escapes is one code point, a lone surrogate becomes U+FFFD.
    [pending] counts the bytes still to come of a sequence that was found
    well-formed at its first byte. *)
Fixpoint render (pending : nat) (l : list sitem) : list ascii :=
  match l with
  | [] => []
  | SByte c :: r =>
      match pending with
      | S n => c :: render n r
      | O =>
          if code c <? 128 then c :: render 0 r
          else match continuation (code c) r with
               | Some n => c :: render n r
               | None => utf8 65533 ++ render 0 r
               end
      end
  | SUnit u :: r =>
      if is_high_surrogate u then
        match r with
        | SUnit v :: r' =>
            if is_low_surrogate v
            then utf8 (65536 + (u - 55296) * 1024 + (v - 56320)) ++ render 0 r'
            else utf8 65533 ++ render 0 r
        | _ => utf8 65533 ++ render 0 r
        end
      else if is_low_surrogate u then utf8 65533 ++ render 0 r
      else utf8 u ++ render 0 r
  end.

Definition unescape (c : ascii) : option ascii :=
  if Ascii.eqb c dquote then Some dquote
  else if Ascii.eqb c "\" then Some c
  else if Ascii.eqb c "/" then Some c
  else if Ascii.eqb c "b" then Some (ascii_of_N 8)
  else if Ascii.eqb c "f" then Some (ascii_of_N 12)
  else if Ascii.eqb c "n" then Some (ascii_of_N 10)
  else if Ascii.eqb c "r" then Some (ascii_of_N 13)
  else if Ascii.eqb c "t" then Some (ascii_of_N 9)
  else None.

Definition punct (c : ascii) : option token :=
  if Ascii.eqb c "{" then Some TLBrace
  else if Ascii.eqb c "}" then Some TRBrace
  else if Ascii.eqb c "[" then Some TLBracket
  else if Ascii.eqb c "]" then Some TRBracket
  else if Ascii.eqb c ":" then Some TColon
  else if Ascii.eqb c "," then Some TComma
  else None.

(** One character outside of any word or string.  Tokens are collected in
    reverse. *)
Definition lex_idle (out : list token) (c : ascii) : option (lexmode * list token) :=
  if is_space c then Some (LIdle, out)
  else if Ascii.eqb c dquote then Some (LStr [], out)
  else if is_word c then Some (LWord [c], out)
  else match punct c with
       | Some t => Some (LIdle, t :: out)
       | None => None
       end.

Definition lex_step (st : option (lexmode * list token)) (c : ascii)
  : option (lexmode * list token) :=
  match st with
  | None => None
  | Some (LIdle, out) => lex_idle out c
  | Some (LWord acc, out) =>
      if is_word c then Some (LWord (c :: acc), out)
      else match word_value (rev acc) with
           | Some j => lex_idle (TScalar j :: out) c
           | None => None
           end
  | Some (LStr acc, out) =>
      if Ascii.eqb c dquote
      then Some (LIdle, TString (string_of_list_ascii (render 0 (rev acc))) :: out)
      else if Ascii.eqb c "\" then Some (LEsc acc, out)
      else if code c <? 32 then None
      else Some (LStr (SByte c :: acc), out)
  | Some (LEsc acc, out) =>
      if Ascii.eqb c "u" then Some (LHex acc 0 0, out)
      else match unescape c with
           | Some c' => Some (LStr (SByte c' :: acc), out)
           | None => None
           end
  | Some (LHex acc n v, out) =>
      match hex_value c with
      | Some h =>
          let v' := v * 16 + h in
          if (n =? 3)%nat then Some (LStr (SUnit v' :: acc), out)
          else Some (LHex acc (S n) v', out)
      | None => None
      end
  end.

Definition tokenize (s : string) : option (list token) :=
  match fold_left lex_step (list_ascii_of_string s) (Some (LIdle, [])) with
  | Some (LIdle, out) => Some (rev out)
  | Some (LWord acc, out) =>
      match word_value (rev acc) with
      | Some j => Some (rev (TScalar j :: out))
      | None => None
      end
  | _ => None
  end.

(** ** Parsing

    A stack machine over the tokens; it accepts exactly one JSON value. *)

Inductive frame : Type :=
| FArray (elems : list json)
| FObject (members : list (string * json)) (key : option string).

Inductive expect : Type :=
| XValue          (* a value *)
| XValueOrClose   (* just after an opening bracket *)
| XKeyOrClose     (* just after an opening brace *)
| XKey            (* after a comma inside an object *)
| XColon          (* after a member name *)
| XNext           (* after a value inside a container *)
| XEnd (v : json).

Definition pstate : Type := list frame * expect.

(** A value is complete: it is the result, or it goes into the innermost
    open container. *)
Definition complete (st : list frame) (v : json) : option pstate :=
  match st with
  | [] => Some ([], XEnd v)
  | FArray es :: st' => Some (FArray (v :: es) :: st', XNext)
  | FObject ms (Some k) :: st' => Some (FObject ((k, v) :: ms) None :: st', XNext)
  | FObject _ None :: _ => None
  end.

(** The library gives up on a text that nests deeper than this. *)
Definition maxNestingDepth : N := 10000.

(** Opening a container, unless that makes the nesting too deep. *)
Definition push (f : frame) (st : list frame) (x : expect) : option pstate :=
  if N.of_nat (length st) <? maxNestingDepth then Some (f :: st, x) else None.

Definition begin_value (st : list frame) (t : token) : option pstate :=
  match t with
  | TScalar j => complete st j
  | TString s => complete st (JString s)
  | TLBracket => push (FArray []) st XValueOrClose
  | TLBrace => push (FObject [] None) st XKeyOrClose
  | _ => None
  end.

Definition close_array (st : list frame) : option pstate :=
  match st with
  | FArray es :: st' => complete st' (JArray (rev es))
  | _ => None
  end.

Definition close_object (st : list frame) : option pstate :=
  match st with
  | FObject ms None :: st' => complete st' (JObject (rev ms))
  | _ => None
  end.

Definition begin_member (st : list frame) (k : string) : option pstate :=
  match st with
  | FObject ms None :: st' => Some (FObject ms (Some k) :: st', XColon)
  | _ => None
  end.

Definition parse_step (ps : option pstate) (t : token) : option pstate :=
  match ps with
  | None => None
  | Some (st, XValue) => begin_value st t
  | Some (st, XValueOrClose) =>
      match t with
      | TRBracket => close_array st
      | _ => begin_value st t
      end
  | Some (st, XKeyOrClose) =>
      match t with
      | TRBrace => close_object st
      | TString k => begin_member st k
      | _ => None
      end
  | Some (st, XKey) =>
      match t with
      | TString k => begin_member st k
      | _ => None
      end
  | Some (st, XColon) =>
      match t with
      | TColon => Some (st, XValue)
      | _ => None
      end
  | Some (st, XNext) =>
      match t, st with
      | TComma, FArray _ :: _ => Some (st, XValue)
      | TComma, FObject _ _ :: _ => Some (st, XKey)
      | TRBracket, _ => close_array st
      | TRBrace, _ => close_object st
      | _, _ => None
      end
  | Some (_, XEnd _) => None
  end.

(** [parse data] is the JSON value [data] spells, or [None] on a syntax
    error (which is when [json.Unmarshal] fails before storing anything). *)
Definition parse (data : string) : option json :=
  match tokenize data with
  | None => None
  | Some ts =>
      match fold_left parse_step ts (Some ([], XValue)) with
      | Some ([], XEnd v) => Some v
      | _ => None
      end
  end.

(** ** Decoding into the package's structs

    [json.Unmarshal] matches member names to the [json:"..."] tags without
    regard to case.  Go folds by Unicode simple folding, under which two
    code points outside ASCII fold to ASCII letters: U+017F to [s] and
    U+212A to [k]. *)
Definition lower (c : ascii) : ascii :=
  let n := code c in
  if (65 <=? n) && (n <=? 90) then ascii_of_N (n + 32) else c.

Fixpoint fold_bytes (l : list N) : list N :=
  match l with
  | 197 :: 191 :: r => 115 :: fold_bytes r
  | 226 :: 132 :: 170 :: r => 107 :: fold_bytes r
  | n :: r => n :: fold_bytes r
  | [] => []
  end.

Definition foldName (k : string) : string :=
  string_of_list_ascii
    (map (fun n => lower (ascii_of_N n)) (fold_bytes (map code (list_ascii_of_string k)))).

(** A Go [error] is its message; [None] is [nil]. *)
Definition error : Type := option string.

(** What [Unmarshal] reports.  The package only ever tests these errors
    against [nil], so the messages stand for Go's longer ones. *)
Definition SyntaxError : string := "invalid JSON".
Definition UnmarshalTypeError : string := "json: cannot unmarshal value into Go value".

(** Only the first error is kept ([saveError]); decoding goes on. *)
Definition saveError (old : error) (e : string) : error :=
  match old with
  | Some _ => old
  | None => Some e
  end.

(** A [string] field takes a JSON string, keeps its value on [null], and
    rejects the rest. *)
Definition store_string (v : json) (old : string) : string * bool :=
  match v with
  | JString s => (s, true)
  | JNull => (old, true)
  | _ => (old, false)
  end.

Fixpoint digits_value (l : list ascii) (acc : N) : option N :=
  match l with
  | [] => Some acc
  | c :: r => if is_digit c then digits_value r (acc * 10 + (code c - 48)) else None
  end.

(** [strconv.ParseUint(lit, 10, 64)]: digits only, and no overflow. *)
Definition ParseUint (lit : string) : option N :=
  match list_ascii_of_string lit with
  | [] => None
  | l => match digits_value l 0 with
         | Some n => if n <? uintMod then Some n else None
         | None => None
         end
  end.

(** A [uint] field takes a number literal that is an unsigned integer in
    range, keeps its value on [null], and rejects the rest. *)
Definition store_uint (v : json) (old : N) : N * bool :=
  match v with
  | JNumber lit =>
      match ParseUint lit with
      | Some n => (n, true)
      | None => (old, false)
      end
  | JNull => (old, true)
  | _ => (old, false)
  end.

Definition noteError (ok : bool) (err : error) : error :=
  if ok then err else saveError err UnmarshalTypeError.

(** The digits of a number literal before its exponent: their value as
    one integer, how many of them follow the point, and what is left of
    the literal after the [e]. *)
Fixpoint mantissa (l : list ascii) (after_point : bool) (d scale : N)
  : N * N * list ascii :=
  match l with
  | [] => (d, scale, [])
  | c :: r =>
      if is_digit c
      then mantissa r after_point (d * 10 + (code c - 48))
             (if after_point then scale + 1 else scale)
      else if Ascii.eqb c "." then mantissa r true d scale
      else (d, scale, r)
  end.

Definition digits (l : list ascii) : N := default 0 (digits_value l 0).

(** The exponent of a number literal, from what follows its [e]. *)
Definition exponent (l : list ascii) : Z :=
  match l with
  | [] => 0%Z
  | c :: r =>
      if Ascii.eqb c "-" then Z.opp (Z.of_N (digits r))
      else if Ascii.eqb c "+" then Z.of_N (digits r)
      else Z.of_N (digits l)
  end.

(** The least magnitude that rounds to infinity as a [float64]: half-way
    between the largest [float64] and 2^1024. *)
Definition float64_overflow : N := 2 ^ 1024 - 2 ^ 970.

(** Whether [d * 10^x] is less than [float64_overflow], for a positive
    [d].  The first test of each branch spares the large powers: beyond
    [10^400] everything overflows, and a [d] of [n] bits is less than
    [10^k] when [n <= 3 * k]. *)
Definition below_overflow (d : N) (x : Z) : bool :=
  if (0 <=? x)%Z then
    if (400 <? x)%Z then false else d * 10 ^ Z.to_N x <? float64_overflow
  else if N.log2 d + 1 <=? 3 * Z.to_N (- x) then true
  else d <? float64_overflow * 10 ^ Z.to_N (- x).

(** [strconv.ParseFloat(lit, 64)] fails on a number literal exactly when
    its magnitude rounds to infinity; a magnitude too small for a
    [float64] rounds to zero without an error. *)
Definition ParseFloat_ok (lit : string) : bool :=
  let l := list_ascii_of_string lit in
  let l := match l with
           | c :: r => if Ascii.eqb c "-" then r else l
           | [] => l
           end in
  let '(d, scale, rest) := mantissa l false 0 0 in
  if d =? 0 then true else below_overflow d (exponent rest - Z.of_N scale).

(** Every number of a value fits a [float64]. *)
Fixpoint numbers_in_range (j : json) : bool :=
  match j with
  | JNumber lit => ParseFloat_ok lit
  | JArray l => forallb numbers_in_range l
  | JObject ms => forallb (fun m => numbers_in_range (snd m)) ms
  | _ => true
  end.

(** [m[k] = v] on a map kept as the list of its entries. *)
Fixpoint assign (k : string) (v : json) (m : list (string * json)) : list (string * json) :=
  match m with
  | [] => [(k, v)]
  | (k', v') :: r => if String.eqb k k' then (k, v) :: r else (k', v') :: assign k v r
  end.

(** The Go value an [interface{}] gets for a JSON value inside an array
    or an object: a number that does not fit a [float64] leaves [nil], an
    object becomes a map, in which a repeated member leaves its last
    value. *)
Fixpoint interface_of (j : json) : json :=
  match j with
  | JNumber lit => if ParseFloat_ok lit then j else JNull
  | JArray l => JArray (map interface_of l)
  | JObject ms =>
      JObject (fold_left (fun m kv => assign (fst kv) (interface_of (snd kv)) m) ms [])
  | _ => j
  end.

(** An [interface{}] field takes any value; a number in it that does not
    fit a [float64] is an error, and when the value is that number, the
    field keeps what it had. *)
Definition store_interface (v : json) (old : json) : json * bool :=
  match v with
  | JNumber lit => if ParseFloat_ok lit then (v, true) else (old, false)
  | _ => (interface_of v, numbers_in_range v)
  end.

Module CommandResult.
Record t : Type := mk {
  Status : string;   (* json:"error" *)
  Data : json;       (* json:"data" *)
  ID : N             (* json:"request_id" *)
}.

Definition zero : t := mk EmptyString JNull 0.

Definition store (acc : t * error) (m : string * json) : t * error :=
  let '(r, err) := acc in
  let '(k, v) := m in
  let name := foldName k in
  if String.eqb name "error" then
    let '(s, ok) := store_string v (Status r) in (mk s (Data r) (ID r), noteError ok err)
  else if String.eqb name "data" then
    let '(d, ok) := store_interface v (Data r) in (mk (Status r) d (ID r), noteError ok err)
  else if String.eqb name "request_id" then
    let '(n, ok) := store_uint v (ID r) in (mk (Status r) (Data r) n, noteError ok err)
  else (r, err).

(** [json.Unmarshal(data, &r)] for [r] a [CommandResult]. *)
Definition Unmarshal (data : string) (r : t) : t * error :=
  match parse data with
  | None => (r, Some SyntaxError)
  | Some JNull => (r, None)
  | Some (JObject ms) => fold_left store ms (r, None)
  | Some _ => (r, Some UnmarshalTypeError)
  end.
End CommandResult.

Module Event.
Record t : Type := mk {
  Name : string;     (* json:"event" *)
  Reason : string;   (* json:"reason" *)
  Prefix : string;   (* json:"prefix" *)
  Level : string;    (* json:"level" *)
  Text : string;     (* json:"text" *)
  ID : N;            (* json:"id" *)
  Data : json;       (* json:"data" *)
  Error : string     (* json:"error" *)
}.

Definition zero : t :=
  mk EmptyString EmptyString EmptyString EmptyString EmptyString 0 JNull EmptyString.

Definition store (acc : t * error) (m : string * json) : t * error :=
  let '(e, err) := acc in
  let '(k, v) := m in
  let name := foldName k in
  let str (get : t -> string) (set : string -> t) :=
    let '(s, ok) := store_string v (get e) in (set s, noteError ok err) in
  if String.eqb name "event" then
    str Name (fun s => mk s (Reason e) (Prefix e) (Level e) (Text e) (ID e) (Data e) (Error e))
  else if String.eqb name "reason" then
    str Reason (fun s => mk (Name e) s (Prefix e) (Level e) (Text e) (ID e) (Data e) (Error e))
  else if String.eqb name "prefix" then
    str Prefix (fun s => mk (Name e) (Reason e) s (Level e) (Text e) (ID e) (Data e) (Error e))
  else if String.eqb name "level" then
    str Level (fun s => mk (Name e) (Reason e) (Prefix e) s (Text e) (ID e) (Data e) (Error e))
  else if String.eqb name "text" then
    str Text (fun s => mk (Name e) (Reason e) (Prefix e) (Level e) s (ID e) (Data e) (Error e))
  else if String.eqb name "id" then
    let '(n, ok) := store_uint v (ID e) in
    (mk (Name e) (Reason e) (Prefix e) (Level e) (Text e) n (Data e) (Error e), noteError ok err)
  else if String.eqb name "data" then
    let '(d, ok) := store_interface v (Data e) in
    (mk (Name e) (Reason e) (Prefix e) (Level e) (Text e) (ID e) d (Error e), noteError ok err)
  else if String.eqb name "error" then
    str Error (fun s => mk (Name e) (Reason e) (Prefix e) (Level e) (Text e) (ID e) (Data e) s)
  else (e, err).

(** [json.Unmarshal(data, &event)] for [event] a [*Event] that points to
    [e]: the target is a pointer to a pointer, so the JSON text [null]
    sets [event] itself to [nil], which is the [None] in the result. *)
Definition Unmarshal (data : string) (e : t) : option t * error :=
  match parse data with
  | None => (Some e, Some SyntaxError)
  | Some JNull => (None, None)
  | Some (JObject ms) => let '(e', err) := fold_left store ms (e, None) in (Some e', err)
  | Some _ => (Some e, Some UnmarshalTypeError)
  end.
End Event.

(** ** Encoding a command

    [json.Marshal] of a [commandRequest].  The arguments are Go values of
    any type: those with a JSON form are given by that form, the others
    (a channel, a function, a NaN) make [Marshal] fail. *)
Inductive arg : Type :=
| Val (j : json)
| Unsupported (type : string).

Definition hex_digit (n : N) : ascii :=
  if n <? 10 then ascii_of_N (48 + n) else ascii_of_N (87 + n).

(** Go writes control characters and the HTML-sensitive [<], [>], [&] as
    [\u00XX], except for the short forms of newline, return and tab.  (Its
    escapes of U+2028, U+2029 and of bytes that are not UTF-8 are left
    out.) *)
Definition escape (c : ascii) : list ascii :=
  let n := code c in
  if Ascii.eqb c dquote then ["\"; dquote]%char
  else if Ascii.eqb c "\" then ["\"; "\"]%char
  else if n =? 10 then ["\"; "n"]%char
  else if n =? 13 then ["\"; "r"]%char
  else if n =? 9 then ["\"; "t"]%char
  else if (n <? 32) || (n =? 60) || (n =? 62) || (n =? 38)
  then ["\"; "u"; "0"; "0"; hex_digit (n / 16); hex_digit (n mod 16)]%char
  else [c].

Definition quote (s : string) : string :=
  string_of_list_ascii
    (dquote :: flat_map escape (list_ascii_of_string s) ++ [dquote]).

Fixpoint join (sep : string) (l : list string) : string :=
  match l with
  | [] => EmptyString
  | [x] => x
  | x :: r => x +:+ sep +:+ join sep r
  end.

Fixpoint encode (j : json) : string :=
  match j with
  | JNull => "null"
  | JBool true => "true"
  | JBool false => "false"
  | JNumber lit => lit
  | JString s => quote s
  | JArray l => "[" +:+ join "," (map encode l) +:+ "]"
  | JObject ms =>
      "{" +:+ join "," (map (fun m => quote (fst m) +:+ ":" +:+ encode (snd m)) ms) +:+ "}"
  end.

Definition decimal (n : N) : string := NilEmpty.string_of_uint (N.to_uint n).

Record commandRequest : Type := mkRequest {
  Arguments_ : list arg;   (* json:"command" *)
  ID : N                   (* json:"request_id" *)
}.

Fixpoint encode_args (l : list arg) : list string + string :=
  match l with
  | [] => inl []
  | Unsupported ty :: _ => inr ("json: unsupported type: " +:+ ty)
  | Val j :: r =>
      match encode_args r with
      | inl out => inl (encode j :: out)
      | inr e => inr e
      end
  end.

(** A call without arguments leaves the variadic slice [nil], which Go
    writes as [null]. *)
Definition Marshal (m : commandRequest) : string + string :=
  match encode_args (Arguments_ m) with
  | inl out =>
      let command :=
        match out with
        | [] => "null"
        | _ => "[" +:+ join "," out +:+ "]"
        end in
      inl (dq "{'command':" +:+ command +:+ dq ",'request_id':" +:+ decimal (ID m) +:+ "}")
  | inr e => inr e
  end.

(** ** The connection *)

(** [net.Conn], as far as the package uses it. *)
Class NetConn (C : Type) : Type := {
  conn_Write : C -> string -> C * error;
  conn_Close : C -> error
}.

(** A function value that comes from the caller is known by its identity. *)
Definition userFunc : Type := nat.

(** The [func(v interface{}, err error)] values that reach [CallAsync]:
    a function of the caller's, or the closure [Call] builds (it stores [v]
    and [err] in [Call]'s results and sends on [finish]), or the closure
    [SetAsync] builds around a [func(error)]. *)
Inductive completion : Type :=
| UserFunc (f : userFunc)
| CallFunc
| SetAsyncFunc (f : userFunc).

Arguments UserFunc f%_nat.
Arguments SetAsyncFunc f%_nat.

(** The closure [CallAsync] stores in [waitingRequests]: it captures [f]
    and [id]. *)
Record request : Type := Request {
  req_f : completion;
  req_id : N
}.

(** A listener, a function that takes a pointer to an event; [None] is
    the [nil] function value. *)
Definition listener : Type := option userFunc.

(** The [lock] field is a mutex and holds no data: what happens to it is
    in the effects. *)
Record Connection (C : Type) : Type := mkConnection {
  client : option C;
  socketName : string;
  lastRequest : N;
  waitingRequests : gmap N request;
  lastListener : N;
  eventListeners : gmap N listener
}.

Arguments mkConnection {C}.
Arguments client {C}.
Arguments socketName {C}.
Arguments lastRequest {C}.
Arguments waitingRequests {C}.
Arguments lastListener {C}.
Arguments eventListeners {C}.

(** What a method does besides changing the [Connection]. *)
Inductive effect : Type :=
| Lock                                 (* c.lock.Lock() *)
| Unlock                               (* c.lock.Unlock() *)
| Dial (name : string)                 (* dial(c.socketName) *)
| GoListen                             (* go c.listen() *)
| WriteConn (data : string)            (* c.client.Write(data) *)
| CloseConn                            (* c.client.Close() *)
| CallCompletion (f : completion) (v : json) (err : error)   (* f(v, err) *)
| CallListener (f : userFunc) (event : Event.t).             (* listener(event) *)

Inductive outcome (A : Type) : Type :=
| Ret (a : A)
| Panic (msg : string).

Arguments Ret {A}.
Arguments Panic {A}.

Definition nilDereference : string :=
  "runtime error: invalid memory address or nil pointer dereference".

(** ** The effect monad: state, a log of effects, and panics *)
Definition M (C A : Type) : Type :=
  Connection C -> outcome A * Connection C * list effect.

Definition ret {C A} (a : A) : M C A := fun c => (Ret a, c, []).

Definition bind {C A B} (m : M C A) (k : A -> M C B) : M C B :=
  fun c =>
    match m c with
    | (Ret a, c1, t1) => let '(r, c2, t2) := k a c1 in (r, c2, t1 ++ t2)
    | (Panic msg, c1, t1) => (Panic msg, c1, t1)
    end.

Definition get {C} : M C (Connection C) := fun c => (Ret c, c, []).
Definition emit {C} (e : effect) : M C unit := fun c => (Ret tt, c, [e]).
Definition panic {C A} (msg : string) : M C A := fun c => (Panic msg, c, []).

(** [defer d; body]: [d] runs when [body] is over, also when it panics. *)
Definition defer {C A} (d : M C unit) (body : M C A) : M C A :=
  fun c =>
    let '(r, c1, t1) := body c in
    let '(_, c2, t2) := d c1 in
    (r, c2, t1 ++ t2).

Declare Scope go_scope.
Delimit Scope go_scope with go.
Notation "x <- m ;; k" := (bind m (fun x => k))
  (at level 100, m at next level, right associativity) : go_scope.
Notation "m ;; k" := (bind m (fun _ => k))
  (at level 100, right associativity) : go_scope.
Local Open Scope go_scope.

Fixpoint forM {C A} (l : list A) (body : A -> M C unit) : M C unit :=
  match l with
  | [] => ret tt
  | x :: r => body x ;; forM r body
  end.

Definition modify {C} (f : Connection C -> Connection C) : M C unit :=
  fun c => (Ret tt, f c, []).

Definition with_client {C} (cl : option C) (c : Connection C) : Connection C :=
  mkConnection cl (socketName c) (lastRequest c) (waitingRequests c)
    (lastListener c) (eventListeners c).

Definition with_lastRequest {C} (n : N) (c : Connection C) : Connection C :=
  mkConnection (client c) (socketName c) n (waitingRequests c)
    (lastListener c) (eventListeners c).

Definition with_waitingRequests {C} (m : gmap N request) (c : Connection C) : Connection C :=
  mkConnection (client c) (socketName c) (lastRequest c) m
    (lastListener c) (eventListeners c).

Definition with_lastListener {C} (n : N) (c : Connection C) : Connection C :=
  mkConnection (client c) (socketName c) (lastRequest c) (waitingRequests c)
    n (eventListeners c).

Definition with_eventListeners {C} (m : gmap N listener) (c : Connection C) : Connection C :=
  mkConnection (client c) (socketName c) (lastRequest c) (waitingRequests c)
    (lastListener c) m.

(** What a caller blocked on a channel gets: nothing yet. *)
Inductive blocking (A : Type) : Type :=
| Returned (a : A)
| Receiving.

Arguments Returned {A}.
Arguments Receiving {A}.

(** ** The methods of [Connection] *)
Section Methods.
Context {C : Type} `{NetConn C}.

Definition lock : M C unit := emit Lock.
Definition unlock : M C unit := emit Unlock.

Definition NewConnection (name : string) : Connection C :=
  mkConnection None name 0 ∅ 0 ∅.

(** [dial] is platform code outside of [mpvipc.go]; [Open] takes it as an
    argument: a stream, or the message of the error. *)
Definition Open (dial : string -> C + string) : M C error :=
  lock ;;
  defer unlock (
    c <- get ;;
    match client c with
    | Some _ => ret (Some "already open")
    | None =>
        emit (Dial (socketName c)) ;;
        match dial (socketName c) with
        | inr err => ret (Some ("can't connect to mpv's socket: " +:+ err))
        | inl cl =>
            modify (with_client (Some cl)) ;;
            emit GoListen ;;
            ret None
        end
    end).

(** The closure [ListenForEvents] returns, for the [id] it captured. *)
Definition cancel (id : N) : M C unit :=
  lock ;;
  modify (fun c => with_eventListeners (delete id (eventListeners c)) c) ;;
  unlock.

(** [ListenForEvents] returns the closure [cancel id]; the model returns
    [id]. *)
Definition ListenForEvents (onEvent : listener) : M C N :=
  lock ;;
  modify (fun c => with_lastListener (uint_succ (lastListener c)) c) ;;
  c <- get ;;
  let id := lastListener c in
  modify (fun c => with_eventListeners (<[id := onEvent]> (eventListeners c)) c) ;;
  unlock ;;
  ret id.

(** [c.client.Write(data)]; on a [nil] client the call panics. *)
Definition client_Write (data : string) : M C error :=
  c <- get ;;
  match client c with
  | None => panic nilDereference
  | Some cl =>
      let '(cl', err) := conn_Write cl data in
      modify (with_client (Some cl')) ;;
      emit (WriteConn data) ;;
      ret err
  end.

Definition newline : string := String (ascii_of_N 10) EmptyString.

Definition SendCommand (id : N) (arguments : list arg) : M C error :=
  c <- get ;;
  match client c with
  | None => ret (Some "trying to send command on closed mpv client")
  | Some _ =>
      let message := mkRequest arguments id in
      match Marshal message with
      | inr err => ret (Some ("can't encode command: " +:+ err))
      | inl data =>
          err <- client_Write data ;;
          match err with
          | Some e => ret (Some ("can't write command: " +:+ e))
          | None =>
              err <- client_Write newline ;;
              match err with
              | Some e => ret (Some ("can't terminate command: " +:+ e))
              | None => ret err
              end
          end
      end
  end.

(** Calling the closure that [CallAsync] stored. *)
Definition call_request (rq : request) (r : CommandResult.t) : M C unit :=
  (if String.eqb (CommandResult.Status r) "success"
   then emit (CallCompletion (req_f rq) (CommandResult.Data r) None)
   else emit (CallCompletion (req_f rq) JNull
                (Some ("mpv error: " +:+ CommandResult.Status r)))) ;;
  lock ;;
  modify (fun c => with_waitingRequests (delete (req_id rq) (waitingRequests c)) c) ;;
  unlock.

Definition CallAsync (f : option completion) (args : list arg) : M C error :=
  lock ;;
  modify (fun c => with_lastRequest (uint_succ (lastRequest c)) c) ;;
  c <- get ;;
  let id := lastRequest c in
  match f with
  | Some f' =>
      modify (fun c => with_waitingRequests (<[id := Request f' id]> (waitingRequests c)) c)
  | None => ret tt
  end ;;
  unlock ;;
  SendCommand id args.

(** [data] and [err] are the named results of [Call], [nil] until the
    closure assigns them; [<-finish] blocks the caller. *)
Definition Call (arguments : list arg) : M C (blocking (json * error)) :=
  let data := JNull in
  let err : error := None in
  callErr <- CallAsync (Some CallFunc) arguments ;;
  match callErr with
  | Some _ => ret (Returned (JNull, err))
  | None => ret Receiving
  end.

Definition Set_ (property : string) (value : arg) : M C (blocking error) :=
  r <- Call [Val (JString "set_property"); Val (JString property); value] ;;
  match r with
  | Returned (_, err) => ret (Returned err)
  | Receiving => ret Receiving
  end.

Definition SetAsync (property : string) (value : arg) (f : option userFunc) : M C error :=
  let asyncFn :=
    match f with
    | Some f' => Some (SetAsyncFunc f')
    | None => None
    end in
  CallAsync asyncFn [Val (JString "set_property"); Val (JString property); value].

Definition Get (property : string) : M C (blocking (json * error)) :=
  r <- Call [Val (JString "get_property"); Val (JString property)] ;;
  match r with
  | Returned (value, err) => ret (Returned (value, err))
  | Receiving => ret Receiving
  end.

Definition Close : M C error :=
  lock ;;
  defer unlock (
    c <- get ;;
    match client c with
    | Some cl =>
        emit CloseConn ;;
        let err := conn_Close cl in
        modify (with_client None) ;;
        ret err
    | None => ret None
    end).

Definition IsClosed : M C bool :=
  lock ;;
  defer unlock (
    c <- get ;;
    ret (match client c with None => true | Some _ => false end)).

Definition checkResult (data : string) : M C unit :=
  let result := CommandResult.zero in
  let '(result, err) := CommandResult.Unmarshal data result in
  match err with
  | Some _ => ret tt
  | None =>
      if String.eqb (CommandResult.Status result) EmptyString then ret tt
      else
        lock ;;
        c <- get ;;
        let request := waitingRequests c !! CommandResult.ID result in
        unlock ;;
        match request with
        | Some rq => call_request rq result
        | None => ret tt
        end
  end.

(** One turn of the loop over [c.eventListeners]: the listener is looked up
    again by its id, and called; calling [nil] panics. *)
Definition notify (event : Event.t) (listenerID : N) : M C unit :=
  c <- get ;;
  match eventListeners c !! listenerID with
  | Some (Some f) => emit (CallListener f event)
  | _ => panic nilDereference
  end.

(** Go leaves the order of a [range] over a map open; here it is the order
    of [map_to_list]. *)
Definition checkEvent (data : string) : M C unit :=
  let '(event, err) := Event.Unmarshal data Event.zero in
  match err with
  | Some _ => ret tt
  | None =>
      match event with
      | None => panic nilDereference
      | Some ev =>
          if String.eqb (Event.Name ev) EmptyString then ret tt
          else
            lock ;;
            c <- get ;;
            forM (map fst (map_to_list (eventListeners c))) (notify ev) ;;
            unlock
      end
  end.

(** [lines] is what the scanner yields from the stream before [Scan]
    returns false.  The scanner is made on [c.client]; on a [nil] client
    the first [Scan] panics, reading from nothing. *)
Definition listen (lines : list string) : M C unit :=
  c <- get ;;
  match client c with
  | None => panic nilDereference
  | Some _ =>
      forM lines (fun data => checkEvent data ;; checkResult data) ;;
      Close ;;
      ret tt
  end.

End Methods.

(** ** A stream for examples

    A [net.Conn] whose [Write] calls return, one after the other, the
    errors listed in [writes] (and [nil] once the list is used up), and
    whose [Close] returns [closing]. *)
Record scripted : Type := Scripted {
  writes : list error;
  closing : error
}.

#[export] Instance scripted_NetConn : NetConn scripted := {
  conn_Write cl _ :=
    match writes cl with
    | [] => (cl, None)
    | e :: r => (Scripted r (closing cl), e)
    end;
  conn_Close cl := closing cl
}.

(** ** Histories

    What callers and the reader loop do to one connection, one step at a
    time: each step is a method call, or the reader loop taking one line
    (one turn of the loop in [listen]).  [Call] and [SetAsync] are
    [CallAsync] with their own closure as the callback, [OpCancel id] is a
    call of the closure that [ListenForEvents] returned for [id].

    A history is an interleaving of whole steps.  The callbacks of the
    caller are opaque: their calls are logged, what they do is not part of
    the connection. *)
Inductive op (C : Type) : Type :=
| OpOpen (dial : string -> C + string)
| OpClose
| OpIsClosed
| OpListenForEvents (onEvent : listener)
| OpCancel (id : N)
| OpCallAsync (f : option completion) (args : list arg)
| OpSendCommand (id : N) (args : list arg)
| OpLine (data : string).

Arguments OpOpen {C}.
Arguments OpClose {C}.
Arguments OpIsClosed {C}.
Arguments OpListenForEvents {C}.
Arguments OpCancel {C}.
Arguments OpCallAsync {C}.
Arguments OpSendCommand {C}.
Arguments OpLine {C}.

Section Histories.
Context {C : Type} `{NetConn C}.

Definition step (o : op C) : M C unit :=
  match o with
  | OpOpen dial => Open dial ;; ret tt
  | OpClose => Close ;; ret tt
  | OpIsClosed => IsClosed ;; ret tt
  | OpListenForEvents onEvent => ListenForEvents onEvent ;; ret tt
  | OpCancel id => cancel id
  | OpCallAsync f args => CallAsync f args ;; ret tt
  | OpSendCommand id args => SendCommand id args ;; ret tt
  | OpLine data => checkEvent data ;; checkResult data
  end.

Definition run (ops : list (op C)) : M C unit := forM ops step.

End Histories.

(** ** Reading a run *)
Definition value {C A} (x : outcome A * Connection C * list effect) : outcome A := x.1.1.
Definition state {C A} (x : outcome A * Connection C * list effect) : Connection C := x.1.2.
Definition log {C A} (x : outcome A * Connection C * list effect) : list effect := x.2.

#[export] Instance completion_eq_dec : EqDecision completion.
Proof. solve_decision. Defined.

(** The event the line [{"event":"pause"}] spells. *)
Definition pauseEvent : Event.t :=
  Event.mk "pause" EmptyString EmptyString EmptyString EmptyString 0 JNull EmptyString.

(** What the closure of [CallAsync] hands to the callback for a result. *)
Definition reply (r : CommandResult.t) : json * error :=
  if String.eqb (CommandResult.Status r) "success"
  then (CommandResult.Data r, None)
  else (JNull, Some ("mpv error: " +:+ CommandResult.Status r)).

(** The result a line carries, when [checkResult] does not skip the line. *)
Definition accepted (data : string) : option CommandResult.t :=
  match CommandResult.Unmarshal data CommandResult.zero with
  | (r, None) => if String.eqb (CommandResult.Status r) EmptyString then None else Some r
  | (_, Some _) => None
  end.

(** What [checkEvent] makes of a line: it skips it, or it panics on the
    [nil] pointer that the text [null] leaves in [event], or it has an
    event for the listeners. *)
Inductive reading : Type :=
| Skipped
| Crashed
| Announced (ev : Event.t).

Definition read_event (data : string) : reading :=
  match Event.Unmarshal data Event.zero with
  | (_, Some _) => Skipped
  | (None, None) => Crashed
  | (Some ev, None) => if String.eqb (Event.Name ev) EmptyString then Skipped else Announced ev
  end.

(** The arguments with which [f] was called, in order. *)
Fixpoint completions_of (f : completion) (tr : list effect) : list (json * error) :=
  match tr with
  | [] => []
  | CallCompletion g v e :: r =>
      if bool_decide (g = f) then (v, e) :: completions_of f r else completions_of f r
  | _ :: r => completions_of f r
  end.

Definition is_callback (e : effect) : bool :=
  match e with
  | CallCompletion _ _ _ | CallListener _ _ => true
  | _ => false
  end.

(** Every callback in [tr] is called while the lock is free, when the
    lock is held or not at the start of [tr] as [h] says. *)
Fixpoint calls_unlocked (h : bool) (tr : list effect) : bool :=
  match tr with
  | [] => true
  | Lock :: r => calls_unlocked true r
  | Unlock :: r => calls_unlocked false r
  | e :: r => (if is_callback e then negb h else true) && calls_unlocked h r
  end.

(** Every callback in [tr] is called while the lock is held. *)
Fixpoint calls_locked (h : bool) (tr : list effect) : bool :=
  match tr with
  | [] => true
  | Lock :: r => calls_locked true r
  | Unlock :: r => calls_locked false r
  | e :: r => (if is_callback e then h else true) && calls_locked h r
  end.

(** No entry of the registry of listeners is the [nil] function. *)
Definition no_nil_listener {C} (c : Connection C) : bool :=
  forallb (fun kl => match kl.2 with Some _ => true | None => false end)
    (map_to_list (eventListeners c)).

(** [registers f o]: the step hands the function [f] to [CallAsync]. *)
Definition registers {C} (f : completion) (o : op C) : bool :=
  match o with
  | OpCallAsync (Some g) _ => bool_decide (g = f)
  | _ => false
  end.

(** [listens f o]: the step hands the function [f] to [ListenForEvents]. *)
Definition listens {C} (f : userFunc) (o : op C) : bool :=
  match o with
  | OpListenForEvents (Some g) => bool_decide (g = f)
  | _ => false
  end.

(** Notions that need the methods. *)
Section Notions.
Context {C : Type} `{NetConn C}.
Implicit Types c : Connection C.

(** The lock section of [CallAsync]: the connection it leaves behind. *)
Definition registered (f : option completion) c : Connection C :=
  let c1 := with_lastRequest (uint_succ (lastRequest c)) c in
  match f with
  | Some f' =>
      with_waitingRequests
        (<[lastRequest c1 := Request f' (lastRequest c1)]> (waitingRequests c1)) c1
  | None => c1
  end.

(** The request a line is delivered to, with the result it carries. *)
Definition delivery (data : string) c : option (request * CommandResult.t) :=
  match value (checkEvent data c), accepted data with
  | Ret _, Some r =>
      match waitingRequests c !! CommandResult.ID r with
      | Some rq => Some (rq, r)
      | None => None
      end
  | _, _ => None
  end.

(** Every closure in the table sits at the id it captured. *)
Definition wf c : Prop :=
  forall k rq, waitingRequests c !! k = Some rq -> req_id rq = k.

(** The callback [f] is held by requests at ids in [X] only. *)
Definition held_only_at (f : completion) (X : N -> Prop) c : Prop :=
  forall k rq, waitingRequests c !! k = Some rq -> req_f rq = f -> X k.

(** The function [f] is registered as a listener at ids in [X] only. *)
Definition listening_only_at (f : userFunc) (X : N -> Prop) c : Prop :=
  forall k, eventListeners c !! k = Some (Some f) -> X k.

End Notions.

(** ** Inputs for the examples

    Connections over the scripted stream. *)

Definition socket : string := "/tmp/mpv_socket".

(** A [dial] that connects, to a stream on which every write succeeds. *)
Definition dial_ok (_ : string) : scripted + string := inl (Scripted [] None).

(** A [dial] that fails. *)
Definition dial_refused (_ : string) : scripted + string := inr "connection refused"%string.

Definition fresh : Connection scripted := NewConnection socket.

(** A connection with the listeners 11 and 12. *)
Definition two_listeners : Connection scripted :=
  state (run [OpListenForEvents (Some 11%nat); OpListenForEvents (Some 12%nat)] fresh).

(** A connection with a callback waiting at id 7: six calls without a
    callback, and one with. *)
Definition waiting_at_7 : Connection scripted :=
  state (run (repeat (OpCallAsync None [Val (JString "cycle"); Val (JString "pause")]) 6
              ++ [OpCallAsync (Some (UserFunc 1))
                    [Val (JString "get_property"); Val (JString "volume")]])
           (state (Open dial_ok fresh))).

(** Two requests, answered in the other order, the second answer twice. *)
Definition out_of_order : list (op scripted) :=
  [OpLine (dq "{'error':'success','data':true,'request_id':2}");
   OpLine (dq "{'error':'success','data':1,'request_id':1}");
   OpLine (dq "{'error':'success','data':false,'request_id':2}")].

(** Listener 12 is registered second (id 2), sees one event, and is
    cancelled. *)
Definition cancelled : Connection scripted :=
  let c1 := state (run [OpListenForEvents (Some 11%nat)] fresh) in
  let c2 := state (ListenForEvents (Some 12%nat) c1) in
  let c3 := state (run [OpLine (dq "{'event':'pause'}")] c2) in
  state (cancel 2 c3).

(** ** Further notions

    The mutex, as the goroutine that runs the effects sees it: [lock_after
    h tr] is whether the lock is held after [tr], when [h] says whether it
    was held before; [None] when [tr] locks the held lock (the goroutine
    would block on itself) or unlocks the free one (a run-time error). *)
Fixpoint lock_after (h : bool) (tr : list effect) : option bool :=
  match tr with
  | [] => Some h
  | Lock :: r => if h then None else lock_after true r
  | Unlock :: r => if h then lock_after false r else None
  | _ :: r => lock_after h r
  end.

Definition is_line {C} (o : op C) : bool :=
  match o with
  | OpLine _ => true
  | _ => false
  end.

Definition is_CallAsync {C} (o : op C) : bool :=
  match o with
  | OpCallAsync _ _ => true
  | _ => false
  end.

Definition is_ListenForEvents {C} (o : op C) : bool :=
  match o with
  | OpListenForEvents _ => true
  | _ => false
  end.

(** How many steps of a history satisfy [p]. *)
Definition count_ops {C} (p : op C -> bool) (ops : list (op C)) : N :=
  N.of_nat (length (List.filter p ops)).

(** How often [tr] closes the stream. *)
Definition closes (tr : list effect) : nat :=
  length (List.filter (fun e => match e with CloseConn => true | _ => false end) tr).

(** How many reader loops [tr] starts. *)
Definition readers (tr : list effect) : nat :=
  length (List.filter (fun e => match e with GoListen => true | _ => false end) tr).

(** The two tables and the two counters of [c'] are those of [c]. *)
Definition same_tables {C} (c c' : Connection C) : Prop :=
  waitingRequests c' = waitingRequests c
  /\ eventListeners c' = eventListeners c
  /\ lastRequest c' = lastRequest c
  /\ lastListener c' = lastListener c.

(** The member names of an object, folded as [Unmarshal] folds them. *)
Definition folded_names (ms : list (string * json)) : list string :=
  map (fun m => foldName m.1) ms.

(** Ids in the table, while the counter has room for [budget] more calls. *)
Definition ids_in_range {C} (budget : N) (c : Connection C) : Prop :=
  lastRequest c + budget < uintMod
  /\ forall k rq, waitingRequests c !! k = Some rq -> 1 <= k <= lastRequest c.

(** [has_member name ms]: some member of the object is called [name], up
    to case. *)
Definition has_member (name : string) (ms : list (string * json)) : bool :=
  existsb (fun m => String.eqb (foldName m.1) name) ms.

Definition is_object_or_null (j : option json) : bool :=
  match j with
  | Some (JObject _) | Some JNull => true
  | _ => false
  end.

(** A [dial] to a stream whose first write fails. *)
Definition dial_broken (_ : string) : scripted + string :=
  inl (Scripted [Some "broken pipe"%string] None).

(** A [dial] to a stream whose second write fails, and whose [Close]
    fails too. *)
Definition dial_half (_ : string) : scripted + string :=
  inl (Scripted [None; Some "broken pipe"%string] (Some "already closed"%string)).

(** An open connection on which every write succeeds. *)
Definition opened : Connection scripted := state (Open dial_ok fresh).

Definition broken : Connection scripted := state (Open dial_broken fresh).

Definition half : Connection scripted := state (Open dial_half fresh).

(** The command that toggles the pause. *)
Definition cycle_pause : list arg := [Val (JString "cycle"); Val (JString "pause")].

(** A connection whose only listener is [nil]. *)
Definition with_nil_listener : Connection scripted := state (ListenForEvents None fresh).

(** A connection with a listener and with a callback waiting at id 7. *)
Definition listening_and_waiting : Connection scripted :=
  state (ListenForEvents (Some 11%nat) waiting_at_7).

(** The event mpv sends when a file could not be loaded, here with the
    id of a request in it. *)
Definition end_file_line : string :=
  dq "{'event':'end-file','reason':'error','error':'loading failed','request_id':7}".

(** A history with three calls of [CallAsync] and two listeners. *)
Definition busy_history : list (op scripted) :=
  [OpOpen dial_ok;
   OpCallAsync None cycle_pause;
   OpListenForEvents (Some 11%nat);
   OpCallAsync (Some (UserFunc 1)) [Val (JString "get_version")];
   OpLine (dq "{'event':'pause'}");
   OpListenForEvents (Some 12%nat);
   OpCallAsync (Some (UserFunc 2)) [Val (JString "get_property"); Val (JString "volume")];
   OpLine (dq "{'error':'success','data':50,'request_id':3}");
   OpCancel 1].

(** * Properties *)

(** ** The codec on sample lines *)

Example parse_result_line :
  parse (dq "{'error':'success','data':3.5,'request_id':7}")
  = Some (JObject [("error"%string, JString "success");
                   ("data"%string, JNumber "3.5");
                   ("request_id"%string, JNumber "7")]).
Proof. vm_compute. reflexivity. Qed.

Example parse_nested :
  parse (dq " [1, {'a' : [true , null, -0.5e+3], 'b\n\u00e9\ud83d\uDE00':{}} , []] ")
  = Some (JArray [JNumber "1";
                  JObject [("a"%string, JArray [JBool true; JNull; JNumber "-0.5e+3"]);
                           (String (ascii_of_N 98) (String (ascii_of_N 10)
                             (string_of_list_ascii
                                (map ascii_of_N [195; 169; 240; 159; 152; 128]))),
                            JObject [])];
                  JArray []]).
Proof. vm_compute. reflexivity. Qed.

Example parse_rejects :
  map parse [dq "{'a':1,}"; dq "[1 2]"; dq "01"; dq "1."; dq "tru"; dq "{'a'}";
             dq "'abc"; dq "{} {}"; EmptyString; dq "[1,]"; dq "'\x'"; dq "nul l"; dq "-"]
  = repeat None 13.
Proof. vm_compute. reflexivity. Qed.

Example unmarshal_result_success :
  CommandResult.Unmarshal (dq "{'error':'success','data':3.5,'request_id':7}") CommandResult.zero
  = (CommandResult.mk "success" (JNumber "3.5") 7, None).
Proof. vm_compute. reflexivity. Qed.

Example unmarshal_result_bad_id :
  CommandResult.Unmarshal (dq "{'request_id':-7,'ERROR':'x'}") CommandResult.zero
  = (CommandResult.mk "x" JNull 0, Some UnmarshalTypeError).
Proof. vm_compute. reflexivity. Qed.

Example unmarshal_event_pause :
  Event.Unmarshal (dq "{'event':'pause'}") Event.zero
  = (Some (Event.mk "pause" EmptyString EmptyString EmptyString EmptyString 0 JNull
             EmptyString), None).
Proof. vm_compute. reflexivity. Qed.

Example unmarshal_event_null :
  Event.Unmarshal "null" Event.zero = (None, None).
Proof. vm_compute. reflexivity. Qed.

(** A number beyond the range of [float64] in the payload is an error of
    [Unmarshal]: neither dispatcher acts on such a line. *)
Example unmarshal_result_out_of_range :
  CommandResult.Unmarshal (dq "{'error':'success','data':1e400,'request_id':1}")
    CommandResult.zero
  = (CommandResult.mk "success" JNull 1, Some UnmarshalTypeError)
  /\ accepted (dq "{'error':'success','data':1e400,'request_id':1}") = None
  /\ accepted (dq "{'error':'success','data':[0,{'a':-1.8e308}],'request_id':1}") = None
  /\ read_event (dq "{'event':'pause','data':1e400}") = Skipped.
Proof. vm_compute. repeat split. Qed.

(** The largest [float64] is in range, a number too small for a
    [float64] is no error, and a number of a member that no field takes
    is not looked at. *)
Example unmarshal_result_in_range :
  accepted (dq "{'error':'success','data':1.7976931348623157e308,'request_id':1}")
  = Some (CommandResult.mk "success" (JNumber "1.7976931348623157e308") 1)
  /\ accepted (dq "{'error':'success','data':1e-400,'request_id':1}")
     = Some (CommandResult.mk "success" (JNumber "1e-400") 1)
  /\ accepted (dq "{'error':'success','other':1e400,'request_id':1}")
     = Some (CommandResult.mk "success" JNull 1).
Proof. vm_compute. repeat split. Qed.

Lemma float64_overflow_bounds : 1 <= float64_overflow /\ float64_overflow <= 10 ^ 401.
Proof. split; apply N.leb_le; vm_compute; reflexivity. Qed.

(** The shortcuts of [below_overflow] do not change its answer. *)
Lemma below_overflow_spec d x :
  0 < d ->
  below_overflow d x
  = if (0 <=? x)%Z then d * 10 ^ Z.to_N x <? float64_overflow
    else d <? float64_overflow * 10 ^ Z.to_N (- x).
Proof.
  intros Hd. unfold below_overflow.
  destruct float64_overflow_bounds as [Hlo Hhi].
  generalize dependent float64_overflow. intros O Hlo Hhi.
  destruct (0 <=? x)%Z eqn:Hx.
  - destruct (400 <? x)%Z eqn:Hbig; [|reflexivity].
    symmetry. apply N.ltb_ge.
    apply Z.ltb_lt in Hbig.
    assert (10 ^ 401 <= 10 ^ Z.to_N x) as Hpow by (apply N.pow_le_mono_r; lia).
    generalize dependent (10 ^ 401). generalize dependent (10 ^ Z.to_N x). intros. nia.
  - destruct (N.log2 d + 1 <=? 3 * Z.to_N (- x)) eqn:Hsmall; [|reflexivity].
    symmetry. apply N.ltb_lt. apply N.leb_le in Hsmall.
    set (k := Z.to_N (- x)) in *.
    assert (d < 2 ^ (N.log2 d + 1)) as H1.
    { rewrite N.add_1_r. apply N.log2_spec. exact Hd. }
    assert (2 ^ (N.log2 d + 1) <= 2 ^ (3 * k)) as H2 by (apply N.pow_le_mono_r; lia).
    assert (2 ^ (3 * k) <= 10 ^ k) as H3.
    { rewrite N.pow_mul_r. apply N.pow_le_mono_l. apply N.leb_le. reflexivity. }
    generalize dependent (10 ^ k). generalize dependent (2 ^ (3 * k)).
    generalize dependent (2 ^ (N.log2 d + 1)). intros. nia.
Qed.

(** Exponents of any size are decided at once. *)
Example unmarshal_result_huge_exponent :
  accepted (dq "{'error':'success','data':1e999999999999,'request_id':1}") = None
  /\ accepted (dq "{'error':'success','data':-7.5E-999999999999,'request_id':1}")
     = Some (CommandResult.mk "success" (JNumber "-7.5E-999999999999") 1).
Proof. vm_compute. split; reflexivity. Qed.

(** An object in the payload is a map: a repeated member leaves its last
    value. *)
Example unmarshal_result_map :
  accepted (dq "{'error':'success','data':{'a':1,'b':2,'a':3},'request_id':1}")
  = Some (CommandResult.mk "success"
            (JObject [("a"%string, JNumber "3"); ("b"%string, JNumber "2")]) 1).
Proof. vm_compute. reflexivity. Qed.

(** A byte that is not UTF-8 becomes U+FFFD in the string; well-formed
    UTF-8 is kept. *)
Example parse_invalid_utf8 :
  parse (string_of_list_ascii (map ascii_of_N [34; 97; 255; 195; 34]))
  = Some (JString (string_of_list_ascii
                     (map ascii_of_N [97; 239; 191; 189; 239; 191; 189])))
  /\ parse (string_of_list_ascii (map ascii_of_N [34; 195; 169; 226; 130; 172; 34]))
     = Some (JString (string_of_list_ascii (map ascii_of_N [195; 169; 226; 130; 172]))).
Proof. vm_compute. split; reflexivity. Qed.

(** No container opens at the depth of [maxNestingDepth]. *)
Lemma begin_value_too_deep st t :
  maxNestingDepth <= N.of_nat (length st) ->
  (t = TLBracket \/ t = TLBrace) ->
  begin_value st t = None.
Proof.
  intros Hdeep [-> | ->]; cbn; unfold push;
    apply N.ltb_ge in Hdeep; by rewrite Hdeep.
Qed.

Example marshal_cycle_pause :
  Marshal (mkRequest [Val (JString "cycle"); Val (JString "pause")] 1)
  = inl (dq "{'command':['cycle','pause'],'request_id':1}").
Proof. vm_compute. reflexivity. Qed.

(** ** The monad *)

(** What [bind] does, by the outcome of its first part. *)
Lemma bind_eq {C A B} (m : M C A) (k : A -> M C B) (c : Connection C) :
  bind m k c
  = match value (m c) with
    | Ret a =>
        let x := k a (state (m c)) in
        (value x, state x, log (m c) ++ log x)
    | Panic msg => (Panic msg, state (m c), log (m c))
    end.
Proof.
  unfold bind, value, state, log.
  destruct (m c) as [[[a|msg] c1] t1]; cbn; [|reflexivity].
  destruct (k a c1) as [[r c2] t2]; reflexivity.
Qed.

Lemma defer_eq {C A} (d : M C unit) (body : M C A) (c : Connection C) :
  defer d body c
  = (value (body c), state (d (state (body c))), log (body c) ++ log (d (state (body c)))).
Proof.
  unfold defer, value, state, log.
  destruct (body c) as [[r c1] t1]; cbn.
  destruct (d c1) as [[u c2] t2]; reflexivity.
Qed.

Section Properties.
Context {C : Type} `{NetConn C}.
Implicit Types (c : Connection C) (tr : list effect).

(** ** What each method does, as one equation *)

Lemma Open_eq dial c :
  Open dial c
  = match client c with
    | Some _ => (Ret (Some "already open"%string), c, [Lock; Unlock])
    | None =>
        match dial (socketName c) with
        | inr err =>
            (Ret (Some ("can't connect to mpv's socket: " +:+ err)), c,
             [Lock; Dial (socketName c); Unlock])
        | inl cl =>
            (Ret None, with_client (Some cl) c,
             [Lock; Dial (socketName c); GoListen; Unlock])
        end
    end.
Proof.
  unfold Open, defer, bind, lock, unlock, emit, get, modify, ret. cbn.
  destruct (client c); cbn; [reflexivity|].
  destruct (dial (socketName c)); reflexivity.
Qed.

Lemma Close_eq c :
  Close c
  = match client c with
    | Some cl => (Ret (conn_Close cl), with_client None c, [Lock; CloseConn; Unlock])
    | None => (Ret None, c, [Lock; Unlock])
    end.
Proof.
  unfold Close, defer, bind, lock, unlock, emit, get, modify, ret. cbn.
  destruct (client c); reflexivity.
Qed.

Lemma IsClosed_eq c :
  IsClosed c
  = (Ret (match client c with None => true | Some _ => false end), c, [Lock; Unlock]).
Proof. reflexivity. Qed.

Lemma ListenForEvents_eq onEvent c :
  ListenForEvents onEvent c
  = let id := uint_succ (lastListener c) in
    (Ret id,
     with_eventListeners (<[id := onEvent]> (eventListeners c)) (with_lastListener id c),
     [Lock; Unlock]).
Proof. reflexivity. Qed.

Lemma cancel_eq id c :
  cancel id c
  = (Ret tt, with_eventListeners (delete id (eventListeners c)) c, [Lock; Unlock]).
Proof. reflexivity. Qed.

Lemma call_request_eq rq r c :
  call_request rq r c
  = (Ret tt,
     with_waitingRequests (delete (req_id rq) (waitingRequests c)) c,
     [CallCompletion (req_f rq) (reply r).1 (reply r).2; Lock; Unlock]).
Proof.
  unfold call_request, reply, bind, lock, unlock, emit, modify.
  destruct (String.eqb _ _); reflexivity.
Qed.

Lemma checkResult_eq data c :
  checkResult data c
  = match accepted data with
    | None => (Ret tt, c, [])
    | Some r =>
        match waitingRequests c !! CommandResult.ID r with
        | None => (Ret tt, c, [Lock; Unlock])
        | Some rq =>
            (Ret tt,
             with_waitingRequests (delete (req_id rq) (waitingRequests c)) c,
             [Lock; Unlock; CallCompletion (req_f rq) (reply r).1 (reply r).2;
              Lock; Unlock])
        end
    end.
Proof.
  unfold checkResult, accepted.
  destruct (CommandResult.Unmarshal data CommandResult.zero) as [r [e|]]; [reflexivity|].
  destruct (String.eqb (CommandResult.Status r) EmptyString); [reflexivity|].
  unfold bind, lock, unlock, emit, get. cbn -[call_request].
  destruct (waitingRequests c !! CommandResult.ID r) as [rq|]; [|reflexivity].
  rewrite call_request_eq. reflexivity.
Qed.

(** The effects of [SendCommand] are writes. *)
Lemma SendCommand_log id args c :
  Forall (fun e => exists data, e = WriteConn data) (log (SendCommand id args c)).
Proof.
  unfold SendCommand. rewrite bind_eq. cbn -[Marshal client_Write].
  destruct (client c) as [cl|] eqn:Hc; [|constructor].
  destruct (Marshal _) as [data|err]; [|constructor].
  rewrite bind_eq.
  assert (forall d c', client c' <> None ->
            exists cl' e, client_Write d c' = (Ret e, with_client (Some cl') c', [WriteConn d]))
    as Hw.
  { intros d c' Hc'. unfold client_Write, bind, get, modify, emit, ret. cbn.
    destruct (client c') as [cl0|]; [|done].
    destruct (conn_Write cl0 d) as [cl' e]. by exists cl', e. }
  destruct (Hw data c) as (cl1 & e1 & ->); [by rewrite Hc|]. cbn -[client_Write].
  destruct e1 as [e1|]; cbn -[client_Write]; [repeat constructor; by eexists|].
  rewrite bind_eq.
  destruct (Hw newline (with_client (Some cl1) c)) as (cl2 & e2 & ->); [done|].
  cbn. destruct e2; cbn; repeat constructor; by eexists.
Qed.

(** ** The loop over the listeners *)

Lemma forM_cons {A} (x : A) (l : list A) (body : A -> M C unit) :
  forM (x :: l) body = (body x ;; forM l body).
Proof. reflexivity. Qed.

(** While every listener on the way is a function, each is called, in
    order, and nothing else happens. *)
Lemma forM_notify_all ev c (l : list (N * userFunc)) :
  (forall k f, In (k, f) l -> eventListeners c !! k = Some (Some f)) ->
  forM (map fst l) (notify ev) c
  = (Ret tt, c, map (fun kf => CallListener kf.2 ev) l).
Proof.
  induction l as [|[k f] l IH]; intros Hl; [reflexivity|].
  cbn [map fst]. rewrite forM_cons, bind_eq.
  assert (notify ev k c = (Ret tt, c, [CallListener f ev])) as ->.
  { unfold notify, bind, get, emit. cbn. rewrite (Hl k f); [reflexivity | by left]. }
  cbn -[forM]. rewrite IH; [reflexivity|].
  intros k' f' Hin. apply Hl. by right.
Qed.

(** In any case the loop only calls listeners, and only registered ones;
    it leaves the connection as it is. *)
Lemma forM_notify_any ev c (ks : list N) :
  state (forM ks (notify ev) c) = c
  /\ Forall (fun e => exists k f, e = CallListener f ev
                               /\ eventListeners c !! k = Some (Some f))
       (log (forM ks (notify ev) c)).
Proof.
  induction ks as [|k ks [IHs IHl]]; [by split; [|constructor]|].
  rewrite forM_cons, bind_eq.
  unfold notify at 1 3 5. unfold bind, get, emit, panic. cbn -[forM].
  destruct (eventListeners c !! k) as [[f|]|] eqn:Hk; cbn -[forM];
    try (split; [reflexivity | constructor]).
  split; [exact IHs|].
  constructor; [by exists k, f | exact IHl].
Qed.


Lemma checkEvent_eq data c :
  checkEvent data c
  = match read_event data with
    | Skipped => (Ret tt, c, [])
    | Crashed => (Panic nilDereference, c, [])
    | Announced ev =>
        let x := forM (map fst (map_to_list (eventListeners c))) (notify ev) c in
        match value x with
        | Ret _ => (Ret tt, c, Lock :: log x ++ [Unlock])
        | Panic msg => (Panic msg, c, Lock :: log x)
        end
    end.
Proof.
  unfold checkEvent, read_event.
  destruct (Event.Unmarshal data Event.zero) as [[ev|] [e|]]; try reflexivity.
  destruct (String.eqb (Event.Name ev) EmptyString); [reflexivity|].
  destruct (forM_notify_any ev c (map fst (map_to_list (eventListeners c)))) as [Hst _].
  revert Hst. unfold lock, unlock, bind, emit, get, value, state, log. cbn -[forM].
  destruct (forM _ _ c) as [[[[]|msg] c1] t1]; cbn; intros ->; reflexivity.
Qed.

Lemma checkEvent_state data c : state (checkEvent data c) = c.
Proof.
  rewrite checkEvent_eq. destruct (read_event data) as [| |ev]; try reflexivity.
  cbn zeta. destruct (value (forM _ _ c)); reflexivity.
Qed.

(** [checkEvent] takes the lock, calls registered listeners, and gives the
    lock back unless a call panicked. *)
Lemma checkEvent_log data c :
  log (checkEvent data c) = []
  \/ exists calls tail,
       log (checkEvent data c) = Lock :: calls ++ tail
       /\ (tail = [] \/ tail = [Unlock])
       /\ Forall (fun e => exists k f ev, e = CallListener f ev
                                      /\ eventListeners c !! k = Some (Some f)) calls.
Proof.
  rewrite checkEvent_eq. destruct (read_event data) as [| |ev]; try (by left).
  cbn zeta. right.
  destruct (forM_notify_any ev c (map fst (map_to_list (eventListeners c)))) as [_ Hlog].
  exists (log (forM (map fst (map_to_list (eventListeners c))) (notify ev) c)).
  destruct (value (forM _ _ c)).
  - exists [Unlock]. split; [reflexivity|]. split; [by right|].
    eapply Forall_impl; [exact Hlog|]. intros e (k & f & -> & Hk). by exists k, f, ev.
  - exists []. split; [by rewrite app_nil_r|]. split; [by left|].
    eapply Forall_impl; [exact Hlog|]. intros e (k & f & -> & Hk). by exists k, f, ev.
Qed.

(** ** Sending *)

(** C6. On a connection whose [client] is [nil], [SendCommand] returns the
    error "trying to send command on closed mpv client", writes nothing
    (it has no effect at all) and leaves the connection as it was. *)
Theorem SendCommand_on_closed c id args :
  client c = None ->
  SendCommand id args c
  = (Ret (Some "trying to send command on closed mpv client"%string), c, []).
Proof.
  intros Hnil. unfold SendCommand, bind, get. cbn. rewrite Hnil. reflexivity.
Qed.

Lemma CallAsync_unfold f args c :
  CallAsync f args c
  = let '(r, c', tr) := SendCommand (uint_succ (lastRequest c)) args (registered f c) in
    (r, c', Lock :: Unlock :: tr).
Proof.
  unfold CallAsync, registered, bind, lock, unlock, emit, modify, get, ret.
  destruct f; cbn -[SendCommand];
    match goal with
    | |- context [SendCommand ?i ?a ?s] => destruct (SendCommand i a s) as [[r c'] tr]
    end; reflexivity.
Qed.

(** [SendCommand] changes nothing of the connection but the stream. *)
Lemma SendCommand_state id args c :
  exists cl, state (SendCommand id args c) = with_client cl c
             /\ (client c = None -> cl = None).
Proof.
  unfold SendCommand, bind, get, state. cbn.
  destruct (client c) as [cl|] eqn:Hc.
  2:{ exists None. cbn. split; [|done]. destruct c; cbn in *; by subst. }
  destruct (Marshal _) as [data|err]; cbn.
  2:{ exists (Some cl). split; [|done]. destruct c; cbn in *; by subst. }
  unfold client_Write, bind, get, modify, emit, ret, panic. cbn. rewrite Hc.
  destruct (conn_Write cl data) as [cl1 [e1|]]; cbn.
  { exists (Some cl1). split; [|done]. by destruct c. }
  destruct (conn_Write cl1 newline) as [cl2 [e2|]]; cbn;
    (exists (Some cl2); split; [|done]; by destruct c).
Qed.

(** C8. When [CallAsync] is given a callback and returns an error (the
    send failed), the table still maps the request id it allocated,
    [lastRequest + 1], to the closure around that callback. *)
Theorem CallAsync_send_failure_keeps_entry c f args e :
  value (CallAsync (Some f) args c) = Ret (Some e) ->
  let id := uint_succ (lastRequest c) in
  waitingRequests (state (CallAsync (Some f) args c)) !! id = Some (Request f id).
Proof.
  intros _ id. rewrite CallAsync_unfold.
  destruct (SendCommand_state id args (registered (Some f) c)) as (cl & Hst & _).
  fold id. unfold state in *.
  destruct (SendCommand id args _) as [[r c'] tr]. cbn in *. subst c'.
  cbn. apply lookup_insert_eq.
Qed.

(** Whenever [CallAsync] returns an error, [Call] returns at once, and
    what it returns is its own result [err], which nothing has assigned:
    [nil]. *)
Lemma Call_drops_send_error args c e :
  value (CallAsync (Some CallFunc) args c) = Ret (Some e) ->
  Call args c
  = (Ret (Returned (JNull, None)), state (CallAsync (Some CallFunc) args c),
     log (CallAsync (Some CallFunc) args c)).
Proof.
  intros Herr. unfold Call. rewrite bind_eq, Herr. cbn. by rewrite app_nil_r.
Qed.

(** C2, as the code has it: on a connection that is not open [CallAsync]
    fails to send, and [Call] returns at once, but with a [nil] error
    and not with the error of the send. *)
Theorem Call_on_closed_returns_nil_error (name : string) args :
  value (SendCommand 1 args (NewConnection name : Connection C))
  = Ret (Some "trying to send command on closed mpv client"%string)
  /\ value (CallAsync (Some CallFunc) args (NewConnection name : Connection C))
     = Ret (Some "trying to send command on closed mpv client"%string)
  /\ value (Call args (NewConnection name : Connection C)) = Ret (Returned (JNull, None)).
Proof.
  repeat split; reflexivity.
Qed.

(** ** Opening and closing *)

Lemma IsClosed_value c :
  value (IsClosed c) = Ret (match client c with None => true | Some _ => false end).
Proof. reflexivity. Qed.

Lemma Close_client c : client (state (Close c)) = None.
Proof.
  unfold Close, defer, bind, lock, unlock, emit, get, modify, ret, state. cbn.
  destruct (client c) eqn:Hc; cbn; [reflexivity | exact Hc].
Qed.

(** C10. When the connection is closed and [dial] fails, [Open] returns
    the error "can't connect to mpv's socket: ..." and leaves the
    connection as it was: no stream, tables and counters untouched, no
    reader loop started; [IsClosed] is still true. *)
Theorem Open_dial_failure dial c msg :
  client c = None ->
  dial (socketName c) = inr msg ->
  Open dial c
  = (Ret (Some ("can't connect to mpv's socket: " +:+ msg)), c,
     [Lock; Dial (socketName c); Unlock])
  /\ ~ In GoListen (log (Open dial c))
  /\ value (IsClosed (state (Open dial c))) = Ret true.
Proof.
  intros Hnil Hdial.
  assert (Open dial c
          = (Ret (Some ("can't connect to mpv's socket: " +:+ msg)), c,
             [Lock; Dial (socketName c); Unlock])) as Heq.
  { unfold Open, defer, bind, lock, unlock, emit, get. cbn.
    rewrite Hnil. cbn. rewrite Hdial. reflexivity. }
  rewrite Heq. split; [reflexivity|]. split.
  - cbn. intros [Hf|[Hf|[Hf|[]]]]; discriminate.
  - rewrite IsClosed_value. cbn. by rewrite Hnil.
Qed.

(** ** Dispatch of single lines *)

(** C3. With a callback registered for id 7, the line
    [{"error":"success","data":3.5,"request_id":7}] makes the reader loop
    call it with the value 3.5 and a [nil] error, and the line
    [{"error":"property not found","data":null,"request_id":7}] with a
    [nil] value and the error "mpv error: property not found". *)
Theorem result_line_reaches_callback c rq :
  waitingRequests c !! 7 = Some rq ->
  log (step (OpLine (dq "{'error':'success','data':3.5,'request_id':7}")) c)
  = [Lock; Unlock; CallCompletion (req_f rq) (JNumber "3.5") None; Lock; Unlock]
  /\ log (step (OpLine (dq "{'error':'property not found','data':null,'request_id':7}")) c)
     = [Lock; Unlock;
        CallCompletion (req_f rq) JNull (Some "mpv error: property not found"%string);
        Lock; Unlock].
Proof.
  intros Hrq. unfold step. split.
  - rewrite bind_eq, checkEvent_eq, checkResult_eq.
    replace (read_event _) with Skipped by (vm_compute; reflexivity).
    replace (accepted _) with (Some (CommandResult.mk "success" (JNumber "3.5") 7))
      by (vm_compute; reflexivity).
    unfold value, state, log. cbn [fst snd CommandResult.ID]. rewrite Hrq. reflexivity.
  - rewrite bind_eq, checkEvent_eq, checkResult_eq.
    replace (read_event _) with Skipped by (vm_compute; reflexivity).
    replace (accepted _) with (Some (CommandResult.mk "property not found" JNull 7))
      by (vm_compute; reflexivity).
    unfold value, state, log. cbn [fst snd CommandResult.ID]. rewrite Hrq. reflexivity.
Qed.

Lemma functions_of_listeners (l : list (N * listener)) :
  forallb (fun kl => match kl.2 with Some _ => true | None => false end) l = true ->
  exists fs : list (N * userFunc), l = map (fun kf => (kf.1, Some kf.2)) fs.
Proof.
  induction l as [|[k [f|]] l IH]; cbn; intros Hl.
  - by exists [].
  - destruct (IH Hl) as [fs ->]. by exists ((k, f) :: fs).
  - discriminate.
Qed.

(** C4. When no [nil] is registered as a listener, the line
    [{"event":"pause"}] makes the reader loop call, under the lock, the
    listeners [fs] that make up the registry, one call for each entry,
    with the event named "pause" whose other fields are zero; nothing
    else happens. *)
Theorem pause_line_reaches_every_listener c :
  no_nil_listener c = true ->
  exists fs : list (N * userFunc),
    map_to_list (eventListeners c) = map (fun kf => (kf.1, Some kf.2)) fs
    /\ step (OpLine (dq "{'event':'pause'}")) c
       = (Ret tt, c, Lock :: map (fun kf => CallListener kf.2 pauseEvent) fs ++ [Unlock]).
Proof.
  intros Hfun.
  destruct (functions_of_listeners (map_to_list (eventListeners c)) Hfun) as [fs Hfs].
  exists fs. split; [exact Hfs|].
  assert (forM (map fst (map_to_list (eventListeners c))) (notify pauseEvent) c
          = (Ret tt, c, map (fun kf => CallListener kf.2 pauseEvent) fs)) as Hcalls.
  { rewrite Hfs, map_map. cbn [fst].
    change (map (fun x : N * userFunc => x.1) fs) with (map fst fs).
    apply forM_notify_all. intros k f Hin.
    apply elem_of_map_to_list.
    assert ((k, Some f) ∈ map (fun kf : N * userFunc => (kf.1, Some kf.2)) fs) as Hin'.
    { apply list_elem_of_In, in_map_iff. by exists (k, f). }
    rewrite <- Hfs in Hin'. exact Hin'. }
  unfold step. rewrite bind_eq, checkEvent_eq, checkResult_eq.
  replace (read_event _) with (Announced pauseEvent) by (vm_compute; reflexivity).
  replace (accepted _) with (@None CommandResult.t) by (vm_compute; reflexivity).
  cbn zeta. rewrite Hcalls. cbn. by rewrite app_nil_r.
Qed.

(** ** The lock around callbacks *)

Lemma calls_locked_listeners calls tail :
  Forall (fun e => exists f ev, e = CallListener f ev) calls ->
  tail = [] \/ tail = [Unlock] ->
  calls_locked true (calls ++ tail) = true.
Proof.
  intros Hcalls Htail. induction Hcalls as [|e calls (f & ev & ->) _ IH]; cbn.
  - by destruct Htail as [-> | ->].
  - exact IH.
Qed.

(** C9, as the code has it. [checkResult] looks the request up under the
    lock and gives the lock back before it calls the callback: every
    callback it calls runs while the lock is free.  [checkEvent] keeps the
    lock for the whole loop: every listener it calls runs while the lock
    is held. *)
Theorem dispatch_and_the_lock data c :
  calls_unlocked false (log (checkResult data c)) = true
  /\ calls_locked false (log (checkEvent data c)) = true.
Proof.
  split.
  - rewrite checkResult_eq. destruct (accepted data) as [r|]; [|reflexivity].
    destruct (waitingRequests c !! CommandResult.ID r); reflexivity.
  - destruct (checkEvent_log data c) as [-> | (calls & tail & -> & Htail & Hcalls)];
      [reflexivity|].
    cbn. apply calls_locked_listeners; [|exact Htail].
    eapply Forall_impl; [exact Hcalls|]. intros e (k & f & ev & -> & _). by exists f, ev.
Qed.


(** ** Histories, one step at a time *)

Lemma completions_of_app f tr1 tr2 :
  completions_of f (tr1 ++ tr2) = completions_of f tr1 ++ completions_of f tr2.
Proof.
  induction tr1 as [|e tr1 IH]; [reflexivity|].
  destruct e; cbn; try exact IH.
  case_bool_decide; cbn; by rewrite IH.
Qed.

Lemma completions_of_In f v e tr :
  In (CallCompletion f v e) tr <-> In (v, e) (completions_of f tr).
Proof.
  induction tr as [|x tr IH]; [reflexivity|].
  destruct x; cbn;
    try (rewrite <- IH; split; [intros [Hx|Hx]; [discriminate | exact Hx] | by right]).
  case_bool_decide as Hf; cbn; rewrite <- IH.
  - subst. split; (intros [Hx|Hx]; [left; congruence | by right]).
  - split; [intros [Hx|Hx]; [congruence | exact Hx] | by right].
Qed.

Lemma completions_of_quiet f tr :
  Forall (fun e => is_callback e = false) tr -> completions_of f tr = [].
Proof.
  induction 1 as [|e tr He _ IH]; [reflexivity|].
  destruct e; cbn in *; try exact IH. discriminate.
Qed.

Lemma listener_calls_quiet f ev tr :
  Forall (fun e => is_callback e = false) tr -> ~ In (CallListener f ev) tr.
Proof.
  intros Hq Hin. rewrite Forall_forall in Hq.
  apply list_elem_of_In in Hin. specialize (Hq _ Hin). discriminate.
Qed.

Lemma SendCommand_quiet id args c :
  Forall (fun e => is_callback e = false) (log (SendCommand id args c)).
Proof.
  eapply Forall_impl; [apply SendCommand_log|]. by intros e [data ->].
Qed.

Lemma CallAsync_state f args c :
  exists cl, state (CallAsync f args c) = with_client cl (registered f c).
Proof.
  rewrite CallAsync_unfold.
  destruct (SendCommand_state (uint_succ (lastRequest c)) args (registered f c))
    as (cl & Hst & _).
  exists cl. unfold state in *.
  destruct (SendCommand _ _ _) as [[r c'] tr]. exact Hst.
Qed.

Lemma CallAsync_quiet f args c :
  Forall (fun e => is_callback e = false) (log (CallAsync f args c)).
Proof.
  rewrite CallAsync_unfold.
  pose proof (SendCommand_quiet (uint_succ (lastRequest c)) args (registered f c)) as Hq.
  unfold log in *. destruct (SendCommand _ _ _) as [[r c'] tr]. cbn in *.
  by repeat constructor.
Qed.

Lemma step_OpLine_eq data c :
  step (OpLine data) c
  = match value (checkEvent data c) with
    | Ret _ =>
        (value (checkResult data c), state (checkResult data c),
         log (checkEvent data c) ++ log (checkResult data c))
    | Panic msg => (Panic msg, c, log (checkEvent data c))
    end.
Proof.
  unfold step. rewrite bind_eq, checkEvent_state. reflexivity.
Qed.

Lemma checkEvent_completions f data c : completions_of f (log (checkEvent data c)) = [].
Proof.
  destruct (checkEvent_log data c) as [-> | (calls & tail & -> & Htail & Hcalls)];
    [reflexivity|].
  cbn. rewrite completions_of_app.
  rewrite (completions_of_quiet f tail); [|destruct Htail as [-> | ->]; by repeat constructor].
  rewrite app_nil_r. induction Hcalls as [|e calls (k & g & ev & -> & _) _ IH]; [reflexivity|].
  exact IH.
Qed.

(** What a step does to the registry of listeners. *)
Lemma step_eventListeners o c :
  eventListeners (state (step o c))
  = match o with
    | OpListenForEvents onEvent =>
        <[uint_succ (lastListener c) := onEvent]> (eventListeners c)
    | OpCancel id => delete id (eventListeners c)
    | _ => eventListeners c
    end.
Proof.
  destruct o as [dial| | |onEvent|id|f args|id args|data]; unfold step.
  - rewrite bind_eq, Open_eq. destruct (client c); [reflexivity|].
    destruct (dial (socketName c)); reflexivity.
  - rewrite bind_eq, Close_eq. destruct (client c); reflexivity.
  - reflexivity.
  - reflexivity.
  - reflexivity.
  - rewrite bind_eq. destruct (CallAsync_state f args c) as [cl Hst].
    destruct (value (CallAsync f args c)); cbn [state fst snd]; fold (state (CallAsync f args c));
      rewrite Hst; by destruct f.
  - rewrite bind_eq. destruct (SendCommand_state id args c) as (cl & Hst & _).
    destruct (value (SendCommand id args c)); cbn [state fst snd];
      fold (state (SendCommand id args c)); by rewrite Hst.
  - fold (step (OpLine data) c). rewrite step_OpLine_eq.
    destruct (value (checkEvent data c)); [|reflexivity].
    cbn [state fst snd]. rewrite checkResult_eq.
    destruct (accepted data) as [r|]; [|reflexivity].
    destruct (waitingRequests c !! CommandResult.ID r); reflexivity.
Qed.

(** What a step does to the table of waiting requests. *)
Lemma step_waitingRequests o c :
  waitingRequests (state (step o c))
  = match o with
    | OpCallAsync (Some g) _ =>
        <[uint_succ (lastRequest c) := Request g (uint_succ (lastRequest c))]>
          (waitingRequests c)
    | OpLine data =>
        match delivery data c with
        | Some (rq, _) => delete (req_id rq) (waitingRequests c)
        | None => waitingRequests c
        end
    | _ => waitingRequests c
    end.
Proof.
  destruct o as [dial| | |onEvent|id|f args|id args|data]; unfold step.
  - rewrite bind_eq, Open_eq. destruct (client c); [reflexivity|].
    destruct (dial (socketName c)); reflexivity.
  - rewrite bind_eq, Close_eq. destruct (client c); reflexivity.
  - reflexivity.
  - reflexivity.
  - reflexivity.
  - rewrite bind_eq. destruct (CallAsync_state f args c) as [cl Hst].
    destruct (value (CallAsync f args c)); cbn [state fst snd]; fold (state (CallAsync f args c));
      rewrite Hst; by destruct f.
  - rewrite bind_eq. destruct (SendCommand_state id args c) as (cl & Hst & _).
    destruct (value (SendCommand id args c)); cbn [state fst snd];
      fold (state (SendCommand id args c)); by rewrite Hst.
  - fold (step (OpLine data) c). rewrite step_OpLine_eq. unfold delivery.
    destruct (value (checkEvent data c)); [|reflexivity].
    cbn [state fst snd]. rewrite checkResult_eq.
    destruct (accepted data) as [r|]; [|reflexivity].
    destruct (waitingRequests c !! CommandResult.ID r); reflexivity.
Qed.

(** The calls of [f] a step makes: one, when a line is delivered to a
    request that holds [f], and none otherwise. *)
Lemma step_completions f o c :
  completions_of f (log (step o c))
  = match o with
    | OpLine data =>
        match delivery data c with
        | Some (rq, r) => if bool_decide (req_f rq = f) then [reply r] else []
        | None => []
        end
    | _ => []
    end.
Proof.
  destruct o as [dial| | |onEvent|id|g args|id args|data]; unfold step.
  - rewrite bind_eq, Open_eq. destruct (client c); [reflexivity|].
    destruct (dial (socketName c)); reflexivity.
  - rewrite bind_eq, Close_eq. destruct (client c); reflexivity.
  - reflexivity.
  - reflexivity.
  - reflexivity.
  - rewrite bind_eq. pose proof (CallAsync_quiet g args c) as Hq.
    destruct (value (CallAsync g args c)); cbn [log snd]; fold (log (CallAsync g args c));
      rewrite ?app_nil_r; by apply completions_of_quiet.
  - rewrite bind_eq. pose proof (SendCommand_quiet id args c) as Hq.
    destruct (value (SendCommand id args c)); cbn [log snd];
      fold (log (SendCommand id args c));
      rewrite ?app_nil_r; by apply completions_of_quiet.
  - fold (step (OpLine data) c). rewrite step_OpLine_eq. unfold delivery.
    destruct (value (checkEvent data c)); cbn [log snd];
      rewrite ?completions_of_app, checkEvent_completions; [|reflexivity].
    cbn [app]. rewrite checkResult_eq.
    destruct (accepted data) as [r|]; [|reflexivity].
    destruct (waitingRequests c !! CommandResult.ID r) as [rq|]; [|reflexivity].
    cbn. case_bool_decide; [|reflexivity]. by destruct (reply r).
Qed.

(** A step only calls listeners that are in the registry. *)
Lemma step_listener_calls f ev o c :
  In (CallListener f ev) (log (step o c)) ->
  exists k, eventListeners c !! k = Some (Some f).
Proof.
  destruct o as [dial| | |onEvent|id|g args|id args|data]; unfold step.
  - rewrite bind_eq, Open_eq. destruct (client c); [|destruct (dial (socketName c))];
      cbn; intros Hin; repeat (destruct Hin as [Hin|Hin]; [discriminate|]); destruct Hin.
  - rewrite bind_eq, Close_eq. destruct (client c);
      cbn; intros Hin; repeat (destruct Hin as [Hin|Hin]; [discriminate|]); destruct Hin.
  - cbn; intros Hin; repeat (destruct Hin as [Hin|Hin]; [discriminate|]); destruct Hin.
  - cbn; intros Hin; repeat (destruct Hin as [Hin|Hin]; [discriminate|]); destruct Hin.
  - cbn; intros Hin; repeat (destruct Hin as [Hin|Hin]; [discriminate|]); destruct Hin.
  - rewrite bind_eq. pose proof (CallAsync_quiet g args c) as Hq.
    destruct (value (CallAsync g args c)); cbn [log snd]; fold (log (CallAsync g args c));
      rewrite ?app_nil_r; intros Hin; by apply listener_calls_quiet in Hin.
  - rewrite bind_eq. pose proof (SendCommand_quiet id args c) as Hq.
    destruct (value (SendCommand id args c)); cbn [log snd];
      fold (log (SendCommand id args c));
      rewrite ?app_nil_r; intros Hin; by apply listener_calls_quiet in Hin.
  - fold (step (OpLine data) c). rewrite step_OpLine_eq.
    assert (In (CallListener f ev) (log (checkEvent data c)) ->
            exists k, eventListeners c !! k = Some (Some f)) as Hev.
    { destruct (checkEvent_log data c) as [-> | (calls & tail & -> & Htail & Hcalls)];
        [intros []|].
      cbn. intros [Hin|Hin]; [discriminate|]. apply in_app_or in Hin as [Hin|Hin].
      - rewrite Forall_forall in Hcalls. apply list_elem_of_In in Hin.
        destruct (Hcalls _ Hin) as (k & g & ev' & Heq & Hk). exists k. congruence.
      - destruct Htail as [-> | ->]; [destruct Hin|].
        destruct Hin as [Hin|[]]; discriminate. }
    destruct (value (checkEvent data c)); cbn [log snd]; [|exact Hev].
    intros Hin. apply in_app_or in Hin as [Hin|Hin]; [by apply Hev|].
    exfalso. revert Hin. rewrite checkResult_eq.
    destruct (accepted data) as [r|]; [|intros []].
    destruct (waitingRequests c !! CommandResult.ID r);
      cbn; intros Hin; repeat (destruct Hin as [Hin|Hin]; [discriminate|]); destruct Hin.
Qed.


(** ** Whole histories *)

Lemma run_cons o ops c :
  run (o :: ops) c
  = match value (step o c) with
    | Ret _ =>
        let x := run ops (state (step o c)) in
        (value x, state x, log (step o c) ++ log x)
    | Panic msg => (Panic msg, state (step o c), log (step o c))
    end.
Proof. unfold run. rewrite forM_cons, bind_eq. reflexivity. Qed.

Lemma run_app ops1 ops2 c :
  run (ops1 ++ ops2) c
  = match value (run ops1 c) with
    | Ret _ =>
        let x := run ops2 (state (run ops1 c)) in
        (value x, state x, log (run ops1 c) ++ log x)
    | Panic msg => (Panic msg, state (run ops1 c), log (run ops1 c))
    end.
Proof.
  revert c. induction ops1 as [|o ops1 IH]; intros c.
  - cbn. fold (run ops2 c). by destruct (run ops2 c) as [[r c'] tr].
  - rewrite <- app_comm_cons, !run_cons.
    destruct (value (step o c)); [|reflexivity].
    cbn zeta. rewrite IH.
    destruct (value (run ops1 (state (step o c)))); cbn; [|reflexivity].
    by rewrite app_assoc.
Qed.

Lemma NewConnection_wf (name : string) : wf (NewConnection name : Connection C).
Proof. intros k rq Hk. cbn in Hk. by rewrite lookup_empty in Hk. Qed.

Lemma step_wf o c : wf c -> wf (state (step o c)).
Proof.
  intros Hwf k rq. rewrite step_waitingRequests.
  destruct o as [dial| | |onEvent|id|[g|] args|id args|data]; try apply Hwf.
  - rewrite lookup_insert. case_decide as Hk; [|apply Hwf].
    intros [= <-]. exact Hk.
  - destruct (delivery data c) as [[rq' r]|]; [|apply Hwf].
    rewrite lookup_delete. case_decide; [done | apply Hwf].
Qed.

Lemma step_held f X o c :
  registers f o = false -> held_only_at f X c -> held_only_at f X (state (step o c)).
Proof.
  intros Hreg Hheld k rq. rewrite step_waitingRequests.
  destruct o as [dial| | |onEvent|id|[g|] args|id args|data]; try apply Hheld.
  - rewrite lookup_insert. case_decide as Hk; [|apply Hheld].
    intros [= <-] Hf. cbn in *. by case_bool_decide.
  - destruct (delivery data c) as [[rq' r]|]; [|apply Hheld].
    rewrite lookup_delete. case_decide; [done | apply Hheld].
Qed.

(** When [f] is held at [id] only and a step calls it, the step is a line
    whose result has that id; [f] is called once, with what the result
    says, and the entry is gone afterwards. *)
Lemma step_fires f id o c :
  wf c -> held_only_at f (eq id) c ->
  completions_of f (log (step o c)) <> [] ->
  exists data r,
    o = OpLine data /\ accepted data = Some r /\ CommandResult.ID r = id
    /\ completions_of f (log (step o c)) = [reply r]
    /\ waitingRequests (state (step o c)) = delete id (waitingRequests c).
Proof.
  intros Hwf Hheld. rewrite step_completions, step_waitingRequests.
  destruct o as [dial| | |onEvent|k|g args|k args|data]; try done.
  unfold delivery.
  destruct (value (checkEvent data c)); [|done].
  destruct (accepted data) as [r|] eqn:Hacc; [|done].
  destruct (waitingRequests c !! CommandResult.ID r) as [rq|] eqn:Hrq; [|done].
  case_bool_decide as Hf; [|done]. intros _.
  pose proof (Hheld _ _ Hrq Hf) as Hid. pose proof (Hwf _ _ Hrq) as Hcap.
  exists data, r. repeat split; [exact Hacc | congruence |]. by rewrite Hcap, <- Hid.
Qed.

Lemma run_wf ops c : wf c -> wf (state (run ops c)).
Proof.
  revert c. induction ops as [|o ops IH]; intros c Hwf; [exact Hwf|].
  rewrite run_cons. destruct (value (step o c)); cbn [state fst snd].
  - fold (state (run ops (state (step o c)))). by apply IH, step_wf.
  - by apply step_wf.
Qed.

Lemma run_held f X ops c :
  forallb (fun o => negb (registers f o)) ops = true ->
  held_only_at f X c -> held_only_at f X (state (run ops c)).
Proof.
  revert c. induction ops as [|o ops IH]; intros c Hops Hheld; [exact Hheld|].
  cbn in Hops. apply andb_prop in Hops as [Ho Hops]. apply negb_true_iff in Ho.
  rewrite run_cons. destruct (value (step o c)); cbn [state fst snd].
  - fold (state (run ops (state (step o c)))). by apply IH, step_held.
  - by apply step_held.
Qed.

(** A callback that no request holds is not called. *)
Lemma run_quiet f ops c :
  forallb (fun o => negb (registers f o)) ops = true ->
  held_only_at f (fun _ => False) c ->
  completions_of f (log (run ops c)) = [].
Proof.
  revert c. induction ops as [|o ops IH]; intros c Hops Hheld; [reflexivity|].
  cbn in Hops. apply andb_prop in Hops as [Ho Hops]. apply negb_true_iff in Ho.
  assert (completions_of f (log (step o c)) = []) as Hstep.
  { rewrite step_completions. destruct o; try reflexivity. unfold delivery.
    destruct (value (checkEvent data c)); [|reflexivity].
    destruct (accepted data) as [r|]; [|reflexivity].
    destruct (waitingRequests c !! CommandResult.ID r) as [rq|] eqn:Hrq; [|reflexivity].
    case_bool_decide as Hf; [|reflexivity]. destruct (Hheld _ _ Hrq Hf). }
  rewrite run_cons. destruct (value (step o c)); cbn [log snd]; [|exact Hstep].
  fold (log (run ops (state (step o c)))).
  rewrite completions_of_app, Hstep. cbn. by apply IH, step_held.
Qed.

(** A callback held at one id is called at most once. *)
Lemma run_once f id ops c :
  forallb (fun o => negb (registers f o)) ops = true ->
  wf c -> held_only_at f (eq id) c ->
  (length (completions_of f (log (run ops c))) <= 1)%nat.
Proof.
  revert c. induction ops as [|o ops IH]; intros c Hops Hwf Hheld; [cbn; lia|].
  pose proof Hops as Hops'.
  cbn in Hops. apply andb_prop in Hops as [Ho Hops]. apply negb_true_iff in Ho.
  destruct (completions_of f (log (step o c))) as [|ve l] eqn:Hstep.
  - rewrite run_cons. destruct (value (step o c)); cbn [log snd].
    + fold (log (run ops (state (step o c)))). rewrite completions_of_app, Hstep. cbn.
      apply IH; [exact Hops | by apply step_wf | by apply step_held].
    + rewrite Hstep. cbn. lia.
  - destruct (step_fires f id o c Hwf Hheld) as (data & r & -> & Hacc & Hid & Hone & Htab);
      [by rewrite Hstep|].
    rewrite run_cons. destruct (value (step (OpLine data) c)); cbn [log snd].
    + fold (log (run ops (state (step (OpLine data) c)))).
      rewrite completions_of_app, Hone, run_quiet; [cbn; lia | exact Hops |].
      intros k rq. rewrite Htab, lookup_delete. case_decide as Hk; [done|].
      intros Hrq Hf. apply Hk. by apply (Hheld _ _ Hrq Hf).
    + rewrite Hone. cbn. lia.
Qed.

Lemma step_listening f X o c :
  listens f o = false ->
  listening_only_at f X c -> listening_only_at f X (state (step o c)).
Proof.
  intros Hl Hat k. rewrite step_eventListeners.
  destruct o as [dial| | |[g|]|id|g args|id args|data]; try apply Hat.
  - rewrite lookup_insert. case_decide; [|apply Hat].
    intros [= ->]. cbn in Hl. by case_bool_decide.
  - rewrite lookup_insert. case_decide; [done | apply Hat].
  - rewrite lookup_delete. case_decide; [done | apply Hat].
Qed.

Lemma run_listening f X ops c :
  forallb (fun o => negb (listens f o)) ops = true ->
  listening_only_at f X c -> listening_only_at f X (state (run ops c)).
Proof.
  revert c. induction ops as [|o ops IH]; intros c Hops Hat; [exact Hat|].
  cbn in Hops. apply andb_prop in Hops as [Ho Hops]. apply negb_true_iff in Ho.
  rewrite run_cons. destruct (value (step o c)); cbn [state fst snd].
  - fold (state (run ops (state (step o c)))). by apply IH, step_listening.
  - by apply step_listening.
Qed.

(** A function that is not in the registry is not called. *)
Lemma run_silent f ev ops c :
  forallb (fun o => negb (listens f o)) ops = true ->
  listening_only_at f (fun _ => False) c ->
  ~ In (CallListener f ev) (log (run ops c)).
Proof.
  revert c. induction ops as [|o ops IH]; intros c Hops Hat; [intros []|].
  cbn in Hops. apply andb_prop in Hops as [Ho Hops]. apply negb_true_iff in Ho.
  assert (~ In (CallListener f ev) (log (step o c))) as Hstep.
  { intros Hin. apply step_listener_calls in Hin as [k Hk]. exact (Hat k Hk). }
  rewrite run_cons. destruct (value (step o c)); cbn [log snd]; [|exact Hstep].
  fold (log (run ops (state (step o c)))).
  intros Hin. apply in_app_or in Hin as [Hin|Hin]; [by apply Hstep|].
  revert Hin. by apply IH, step_listening.
Qed.


Lemma step_CallAsync_state f args c :
  state (step (OpCallAsync f args) c) = state (CallAsync f args c).
Proof. unfold step. rewrite bind_eq. by destruct (value (CallAsync f args c)). Qed.

(** ** Requests and their callbacks *)

(** C1. Take any history of a new connection in which [CallAsync] is
    handed the function [f] once (after the steps [pre], before the steps
    [post]), and let [id] be the request id that call allocates.  Then [f]
    is called at most once in the whole history; and a step that calls [f]
    is the reader loop taking a line whose result has [request_id] equal
    to [id], [f] gets what that result says, and after the step the table
    has no entry for [id]. *)
Theorem callback_called_at_most_once_and_by_id (name : string) pre f args post :
  forallb (fun o => negb (registers f o)) (pre ++ post) = true ->
  let c1 := state (run pre (NewConnection name)) in
  let id := uint_succ (lastRequest c1) in
  let c2 := state (CallAsync (Some f) args c1) in
  (length (completions_of f
     (log (run (pre ++ OpCallAsync (Some f) args :: post) (NewConnection name)))) <= 1)%nat
  /\ forall post1 o post2 v e,
       post = post1 ++ o :: post2 ->
       In (CallCompletion f v e) (log (step o (state (run post1 c2)))) ->
       exists data r,
         o = OpLine data /\ accepted data = Some r /\ CommandResult.ID r = id
         /\ (v, e) = reply r
         /\ waitingRequests (state (step o (state (run post1 c2)))) !! id = None.
Proof.
  intros Hops c1 id c2.
  rewrite forallb_app in Hops. apply andb_prop in Hops as [Hpre Hpost].
  assert (held_only_at f (fun _ => False) (NewConnection name : Connection C)) as Hnew.
  { intros k rq Hk. cbn in Hk. by rewrite lookup_empty in Hk. }
  assert (wf c1) as Hwf1 by apply run_wf, NewConnection_wf.
  assert (held_only_at f (fun _ => False) c1) as Hheld1 by by apply run_held.
  assert (waitingRequests c2 = <[id := Request f id]> (waitingRequests c1)) as Htab.
  { unfold c2. rewrite <- step_CallAsync_state. by rewrite step_waitingRequests. }
  assert (wf c2) as Hwf2.
  { unfold c2. rewrite <- step_CallAsync_state. by apply step_wf. }
  assert (held_only_at f (eq id) c2) as Hheld2.
  { intros k rq. rewrite Htab, lookup_insert. case_decide as Hk; [done|].
    intros Hrq Hf. destruct (Hheld1 _ _ Hrq Hf). }
  split.
  - rewrite run_app. fold c1.
    pose proof (run_quiet f pre (NewConnection name) Hpre Hnew) as Hq.
    destruct (value (run pre (NewConnection name))); cbn [log snd]; [|rewrite Hq; cbn; lia].
    fold (log (run (OpCallAsync (Some f) args :: post) c1)).
    rewrite completions_of_app, Hq, run_cons. cbn [app].
    pose proof (step_completions f (OpCallAsync (Some f) args) c1) as Hstep.
    rewrite step_CallAsync_state. fold c2.
    destruct (value (step _ c1)); cbn [log snd]; [|rewrite Hstep; cbn; lia].
    fold (log (run post c2)). rewrite completions_of_app, Hstep. cbn [app].
    by apply (run_once f id).
  - intros post1 o post2 v e -> Hin.
    rewrite forallb_app in Hpost. apply andb_prop in Hpost as [Hpost1 _].
    set (c3 := state (run post1 c2)) in *.
    assert (wf c3) as Hwf3 by by apply run_wf.
    assert (held_only_at f (eq id) c3) as Hheld3 by by apply run_held.
    apply completions_of_In in Hin.
    destruct (step_fires f id o c3 Hwf3 Hheld3)
      as (data & r & -> & Hacc & Hid & Hone & Hdel).
    { intros Hnil. by rewrite Hnil in Hin. }
    exists data, r. repeat split; [exact Hacc | exact Hid | |].
    + rewrite Hone in Hin. by destruct Hin as [<-|[]].
    + rewrite Hdel. apply lookup_delete_eq.
Qed.

(** ** Listeners *)

(** C5. Take any history of a new connection in which [ListenForEvents]
    is handed the function [f] once (after the steps [pre]) and the closure
    it returned is called later (after the steps [mid]).  Then no step
    after that calls [f].  And calling such a closure when its id is not in
    the registry leaves the connection as it is. *)
Theorem cancelled_listener_is_not_called (name : string) pre f mid post :
  forallb (fun o => negb (listens f o)) (pre ++ mid ++ post) = true ->
  let c1 := state (run pre (NewConnection name)) in
  let id := uint_succ (lastListener c1) in
  let c2 := state (ListenForEvents (Some f) c1) in
  let c3 := state (run mid c2) in
  let c4 := state (cancel id c3) in
  value (ListenForEvents (Some f) c1) = Ret id
  /\ (forall ev, ~ In (CallListener f ev) (log (run post c4)))
  /\ (forall c k, eventListeners c !! k = None -> state (cancel k c) = c).
Proof.
  intros Hops c1 id c2 c3 c4.
  rewrite !forallb_app in Hops.
  apply andb_prop in Hops as [Hpre Hops]. apply andb_prop in Hops as [Hmid Hpost].
  split; [reflexivity|]. split.
  - intros ev. apply run_silent; [exact Hpost|].
    assert (listening_only_at f (fun _ => False) c1) as Hat1.
    { apply run_listening; [exact Hpre|].
      intros k Hk. cbn in Hk. by rewrite lookup_empty in Hk. }
    assert (listening_only_at f (eq id) c3) as Hat3.
    { apply run_listening; [exact Hmid|].
      intros k. unfold c2. rewrite ListenForEvents_eq. cbn.
      rewrite lookup_insert. case_decide as Hk; [done|].
      intros Hf. destruct (Hat1 _ Hf). }
    intros k. unfold c4. rewrite cancel_eq. cbn.
    rewrite lookup_delete. case_decide as Hk; [done|].
    intros Hf. apply Hk. by apply Hat3.
  - intros c k Hk. rewrite cancel_eq. cbn.
    rewrite delete_id by exact Hk. by destruct c.
Qed.

End Properties.

(** * The theorems at work on a scripted stream *)

(** The text [null] is valid JSON and sets the [*Event] to [nil]:
    [checkEvent] panics on [event.Name]. *)
Example null_line_panics :
  checkEvent "null" fresh = (Panic nilDereference, fresh, []).
Proof. vm_compute. reflexivity. Qed.

(** [ListenForEvents(nil)] stores [nil], and the next event calls it. *)
Example nil_listener_panics :
  let c := state (ListenForEvents None fresh) in
  checkEvent (dq "{'event':'pause'}") c = (Panic nilDereference, c, [Lock]).
Proof. vm_compute. reflexivity. Qed.

(** A line that is neither a result nor an event is dropped. *)
Example unknown_line_is_dropped :
  step (OpLine (dq "{'foo':'bar'}")) two_listeners = (Ret tt, two_listeners, []).
Proof. vm_compute. reflexivity. Qed.

Lemma SendCommand_on_closed_witness :
  client fresh = None
  /\ SendCommand 1 [Val (JString "cycle"); Val (JString "pause")] fresh
     = (Ret (Some "trying to send command on closed mpv client"%string), fresh, []).
Proof.
  split; [reflexivity|]. apply SendCommand_on_closed. reflexivity.
Defined.

Lemma CallAsync_send_failure_keeps_entry_witness :
  value (CallAsync (Some (UserFunc 1)) [Val (JString "get_version")] fresh)
  = Ret (Some "trying to send command on closed mpv client"%string)
  /\ waitingRequests (state (CallAsync (Some (UserFunc 1)) [Val (JString "get_version")] fresh))
       !! 1
     = Some (Request (UserFunc 1) 1).
Proof.
  split; [reflexivity|].
  apply (CallAsync_send_failure_keeps_entry fresh (UserFunc 1) [Val (JString "get_version")]
           "trying to send command on closed mpv client").
  reflexivity.
Defined.

Lemma Open_dial_failure_witness :
  client fresh = None
  /\ dial_refused (socketName fresh) = inr "connection refused"%string
  /\ Open dial_refused fresh
     = (Ret (Some "can't connect to mpv's socket: connection refused"%string), fresh,
        [Lock; Dial socket; Unlock]).
Proof.
  split; [reflexivity|]. split; [reflexivity|].
  apply (Open_dial_failure dial_refused fresh "connection refused"); reflexivity.
Defined.

Lemma result_line_reaches_callback_witness :
  waitingRequests waiting_at_7 !! 7 = Some (Request (UserFunc 1) 7)
  /\ log (step (OpLine (dq "{'error':'success','data':3.5,'request_id':7}")) waiting_at_7)
     = [Lock; Unlock; CallCompletion (UserFunc 1) (JNumber "3.5") None; Lock; Unlock].
Proof.
  split; [reflexivity|].
  apply (result_line_reaches_callback waiting_at_7 (Request (UserFunc 1) 7)). reflexivity.
Defined.

Lemma pause_line_reaches_every_listener_witness :
  no_nil_listener two_listeners = true
  /\ exists fs : list (N * userFunc),
       map_to_list (eventListeners two_listeners) = map (fun kf => (kf.1, Some kf.2)) fs
       /\ step (OpLine (dq "{'event':'pause'}")) two_listeners
          = (Ret tt, two_listeners,
             Lock :: map (fun kf => CallListener kf.2 pauseEvent) fs ++ [Unlock]).
Proof.
  split; [vm_compute; reflexivity|].
  apply pause_line_reaches_every_listener. vm_compute. reflexivity.
Defined.

Lemma callback_called_at_most_once_and_by_id_witness :
  forallb (fun o : op scripted => negb (registers (UserFunc 2) o))
    ([OpOpen dial_ok; OpCallAsync (Some (UserFunc 1)) [Val (JString "get_version")]]
     ++ out_of_order) = true
  /\ completions_of (UserFunc 2)
       (log (run ([OpOpen dial_ok; OpCallAsync (Some (UserFunc 1)) [Val (JString "get_version")]]
                  ++ OpCallAsync (Some (UserFunc 2)) [Val (JString "get_version")]
                     :: out_of_order) fresh))
     = [(JBool true, None)]
  /\ (length (completions_of (UserFunc 2)
        (log (run ([OpOpen dial_ok; OpCallAsync (Some (UserFunc 1)) [Val (JString "get_version")]]
                   ++ OpCallAsync (Some (UserFunc 2)) [Val (JString "get_version")]
                      :: out_of_order) fresh))) <= 1)%nat.
Proof.
  split; [vm_compute; reflexivity|]. split; [vm_compute; reflexivity|].
  apply (callback_called_at_most_once_and_by_id socket
           [OpOpen dial_ok; OpCallAsync (Some (UserFunc 1)) [Val (JString "get_version")]]
           (UserFunc 2) [Val (JString "get_version")] out_of_order).
  vm_compute. reflexivity.
Defined.

Lemma cancelled_listener_is_not_called_witness :
  forallb (fun o : op scripted => negb (listens 12%nat o))
    ([OpListenForEvents (Some 11%nat)] ++ [OpLine (dq "{'event':'pause'}")]
     ++ [OpLine (dq "{'event':'unpause'}")]) = true
  /\ forall ev,
       ~ In (CallListener 12%nat ev)
           (log (run [OpLine (dq "{'event':'unpause'}")] cancelled)).
Proof.
  split; [vm_compute; reflexivity|].
  apply (cancelled_listener_is_not_called socket
           [OpListenForEvents (Some 11%nat)] 12%nat
           [OpLine (dq "{'event':'pause'}")] [OpLine (dq "{'event':'unpause'}")]).
  vm_compute. reflexivity.
Defined.

(** What [checkEvent] does with one listener registered. *)
Example one_listener_trace :
  log (checkEvent (dq "{'event':'pause'}") (state (ListenForEvents (Some 11%nat) fresh)))
  = [Lock; CallListener 11%nat pauseEvent; Unlock].
Proof. vm_compute. reflexivity. Qed.

(** C9 as it was claimed, refuted: were every callback of the reader loop
    called with the lock free, then so would be the listener of
    [{"event":"pause"}] on a connection with one listener; but
    [checkEvent] calls it between [Lock] and [Unlock]. *)
Lemma listener_is_called_under_the_lock :
  ~ (forall (data : string) (c : Connection scripted),
       calls_unlocked false (log (checkEvent data c)) = true
       /\ calls_unlocked false (log (checkResult data c)) = true).
Proof.
  intros Hclaim.
  destruct (Hclaim (dq "{'event':'pause'}") (state (ListenForEvents (Some 11%nat) fresh)))
    as [Hev _].
  vm_compute in Hev. discriminate.
Qed.

(** * Further properties of the methods *)

Section Further.
Context {C : Type} `{NetConn C}.
Implicit Types (c : Connection C) (tr : list effect).

(** ** Closing and opening again *)

(** X1. A second [Close] returns [nil], does not touch the stream and
    leaves the connection as the first [Close] left it; and the first one
    closes the stream at most once. *)
Theorem Close_twice c :
  Close (state (Close c)) = (Ret None, state (Close c), [Lock; Unlock])
  /\ (closes (log (Close c) ++ log (Close (state (Close c)))) <= 1)%nat.
Proof.
  assert (Close (state (Close c)) = (Ret None, state (Close c), [Lock; Unlock])) as Heq.
  { rewrite (Close_eq (state (Close c))), Close_client. reflexivity. }
  split; [exact Heq|]. rewrite Heq, Close_eq.
  destruct (client c); cbn; lia.
Qed.

(** X2. [Close] on an open connection calls the stream's [Close] once,
    returns the error it gives, and forgets the stream whether or not that
    call failed: the connection counts as closed, and an [Open] after it
    dials again. *)
Theorem Close_returns_stream_error c cl dial :
  client c = Some cl ->
  Close c = (Ret (conn_Close cl), with_client None c, [Lock; CloseConn; Unlock])
  /\ value (IsClosed (state (Close c))) = Ret true
  /\ In (Dial (socketName c)) (log (Open dial (state (Close c)))).
Proof.
  intros Hcl. rewrite Close_eq, Hcl. split; [reflexivity|]. split; [reflexivity|].
  rewrite Open_eq. cbn. destruct (dial (socketName c)); cbn; auto.
Qed.

(** X3. After an [Open] that returned no error, another [Open] fails with
    "already open": it does not dial, starts no second reader loop and
    keeps the stream of the first. *)
Theorem Open_twice dial dial' c :
  value (Open dial c) = Ret None ->
  Open dial' (state (Open dial c))
  = (Ret (Some "already open"%string), state (Open dial c), [Lock; Unlock]).
Proof.
  rewrite (Open_eq dial c). intros Hok.
  destruct (client c) as [cl|] eqn:Hc; [discriminate|].
  destruct (dial (socketName c)) as [cl|msg] eqn:Hd; [|discriminate].
  cbn [state fst snd]. rewrite Open_eq. reflexivity.
Qed.

Lemma Close_same_tables c : same_tables c (state (Close c)).
Proof. rewrite Close_eq. destruct (client c); by repeat split. Qed.

(** X4. [Close] followed by [Open] leaves both tables and both counters
    as they were, whatever [dial] does: requests and listeners of the
    session before are still there. *)
Theorem reopen_keeps_tables dial c :
  same_tables c (state (Close c))
  /\ same_tables c (state (Open dial (state (Close c)))).
Proof.
  split; [apply Close_same_tables|].
  rewrite Open_eq, Close_client.
  destruct (dial (socketName (state (Close c)))); apply Close_same_tables.
Qed.

(** X25. [Open] starts a reader loop exactly when it returns no error:
    once then, and not at all when it fails. *)
Theorem Open_starts_one_reader dial c :
  readers (log (Open dial c))
  = match value (Open dial c) with
    | Ret None => 1%nat
    | _ => 0%nat
    end.
Proof.
  rewrite Open_eq. destruct (client c); [reflexivity|].
  destruct (dial (socketName c)); reflexivity.
Qed.

(** ** Sending *)

Lemma client_Write_eq data c cl :
  client c = Some cl ->
  client_Write data c
  = (Ret (conn_Write cl data).2, with_client (Some (conn_Write cl data).1) c,
     [WriteConn data]).
Proof.
  intros Hcl. unfold client_Write, bind, get, modify, emit, ret. cbn. rewrite Hcl.
  by destruct (conn_Write cl data).
Qed.

(** [SendCommand] on an open connection, case by case. *)
Lemma SendCommand_open_eq id args c cl :
  client c = Some cl ->
  SendCommand id args c
  = match Marshal (mkRequest args id) with
    | inr msg => (Ret (Some ("can't encode command: " +:+ msg)), c, [])
    | inl data =>
        match conn_Write cl data with
        | (cl1, Some e) =>
            (Ret (Some ("can't write command: " +:+ e)), with_client (Some cl1) c,
             [WriteConn data])
        | (cl1, None) =>
            match conn_Write cl1 newline with
            | (cl2, Some e) =>
                (Ret (Some ("can't terminate command: " +:+ e)), with_client (Some cl2) c,
                 [WriteConn data; WriteConn newline])
            | (cl2, None) =>
                (Ret None, with_client (Some cl2) c, [WriteConn data; WriteConn newline])
            end
        end
    end.
Proof.
  intros Hcl. unfold SendCommand.
  rewrite bind_eq. cbn [get value state log fst snd]. rewrite Hcl.
  destruct (Marshal (mkRequest args id)) as [data|msg]; [|reflexivity].
  rewrite bind_eq, (client_Write_eq data c cl Hcl).
  destruct (conn_Write cl data) as [cl1 [e|]]; [reflexivity|].
  cbn [value state log fst snd]. rewrite bind_eq.
  rewrite (client_Write_eq newline (with_client (Some cl1) c) cl1 eq_refl).
  destruct (conn_Write cl1 newline) as [cl2 [e|]]; reflexivity.
Qed.

(** X5. On an open connection, with arguments that can be encoded and a
    stream that takes both writes, [SendCommand] writes the encoded
    command and then a newline, returns [nil], and changes nothing of the
    connection but the stream. *)
Theorem SendCommand_writes_one_line id args c cl data cl1 cl2 :
  client c = Some cl ->
  Marshal (mkRequest args id) = inl data ->
  conn_Write cl data = (cl1, None) ->
  conn_Write cl1 newline = (cl2, None) ->
  SendCommand id args c
  = (Ret None, with_client (Some cl2) c, [WriteConn data; WriteConn newline]).
Proof.
  intros Hcl Hm Hw1 Hw2. by rewrite (SendCommand_open_eq id args c cl Hcl), Hm, Hw1, Hw2.
Qed.

(** X6. When the stream refuses the command, [SendCommand] returns "can't
    write command: ..." and does not write the newline; when it takes the
    command and refuses the newline, [SendCommand] returns "can't
    terminate command: ..." with the command already written. *)
Theorem SendCommand_write_failure id args c cl data :
  client c = Some cl ->
  Marshal (mkRequest args id) = inl data ->
  (forall cl1 e, conn_Write cl data = (cl1, Some e) ->
     SendCommand id args c
     = (Ret (Some ("can't write command: " +:+ e)), with_client (Some cl1) c,
        [WriteConn data]))
  /\ (forall cl1 cl2 e,
        conn_Write cl data = (cl1, None) -> conn_Write cl1 newline = (cl2, Some e) ->
        SendCommand id args c
        = (Ret (Some ("can't terminate command: " +:+ e)), with_client (Some cl2) c,
           [WriteConn data; WriteConn newline])).
Proof.
  intros Hcl Hm. rewrite (SendCommand_open_eq id args c cl Hcl), Hm. split.
  - intros cl1 e Hw1. by rewrite Hw1.
  - intros cl1 cl2 e Hw1 Hw2. by rewrite Hw1, Hw2.
Qed.

(** X7. When an argument has no JSON form, [SendCommand] on an open
    connection returns "can't encode command: ...", writes nothing and
    leaves the connection as it was. *)
Theorem SendCommand_encode_failure id args c cl msg :
  client c = Some cl ->
  Marshal (mkRequest args id) = inr msg ->
  SendCommand id args c = (Ret (Some ("can't encode command: " +:+ msg)), c, []).
Proof.
  intros Hcl Hm. by rewrite (SendCommand_open_eq id args c cl Hcl), Hm.
Qed.

(** ** Requests *)


(** X9. Without a callback, [CallAsync] (and [SetAsync]) still takes the
    next request id but puts nothing in the table. *)
Theorem CallAsync_without_callback args property v c :
  waitingRequests (state (CallAsync None args c)) = waitingRequests c
  /\ lastRequest (state (CallAsync None args c)) = uint_succ (lastRequest c)
  /\ waitingRequests (state (SetAsync property v None c)) = waitingRequests c.
Proof.
  unfold SetAsync.
  destruct (CallAsync_state None args c) as [cl ->].
  destruct (CallAsync_state None
              [Val (JString "set_property"); Val (JString property); v] c) as [cl' ->].
  repeat split.
Qed.

(** X10. A request and its reply: when the id [CallAsync] is about to take
    is free, and then a line comes in whose result has that id, the
    callback is called once, with what the result says, and the table is
    again what it was before the call. *)
Theorem request_then_reply f args c data r :
  let id := uint_succ (lastRequest c) in
  let c1 := state (CallAsync (Some f) args c) in
  waitingRequests c !! id = None ->
  accepted data = Some r ->
  CommandResult.ID r = id ->
  value (checkEvent data c1) = Ret tt ->
  completions_of f (log (step (OpLine data) c1)) = [reply r]
  /\ waitingRequests (state (step (OpLine data) c1)) = waitingRequests c.
Proof.
  intros id c1 Hfree Hacc Hid Hev.
  assert (waitingRequests c1 = <[id := Request f id]> (waitingRequests c)) as Htab.
  { unfold c1. by destruct (CallAsync_state (Some f) args c) as [cl ->]. }
  assert (delivery data c1 = Some (Request f id, r)) as Hdel.
  { unfold delivery. rewrite Hev, Hacc, Hid, Htab. by rewrite lookup_insert_eq. }
  split.
  - rewrite step_completions, Hdel. cbn. by case_bool_decide.
  - rewrite step_waitingRequests, Hdel. cbn.
    rewrite Htab, delete_insert_eq. by apply delete_id.
Qed.

(** ** Listeners *)

(** X11. Registering a listener and calling the closure that comes back
    leaves the registry as it was, when the id taken was free. *)
Theorem listen_then_cancel onEvent c :
  let id := uint_succ (lastListener c) in
  eventListeners c !! id = None ->
  value (ListenForEvents onEvent c) = Ret id
  /\ eventListeners (state (cancel id (state (ListenForEvents onEvent c))))
     = eventListeners c.
Proof.
  intros id Hfree. split; [reflexivity|].
  rewrite cancel_eq, ListenForEvents_eq. cbn. fold id.
  rewrite delete_insert_eq. by apply delete_id.
Qed.

Lemma uint_succ_neq x : uint_succ x <> x.
Proof.
  unfold uint_succ. intros Heq.
  assert (0 < uintMod) as Hpos by (by vm_compute).
  assert (1 < uintMod) as Hone by (by vm_compute).
  pose proof (N.mod_upper_bound (x + 1) uintMod ltac:(lia)) as Hlt.
  destruct (decide (x + 1 < uintMod)) as [Hsmall|Hbig].
  - rewrite N.mod_small in Heq by exact Hsmall. lia.
  - assert (x + 1 = uintMod) as Hx by lia.
    rewrite Hx, N.Div0.mod_same in Heq. lia.
Qed.

(** X12. Two listeners registered one after the other get different ids:
    the second does not take the place of the first, both are in the
    registry. *)
Theorem two_listeners_are_both_kept f g c :
  let c1 := state (ListenForEvents f c) in
  let c2 := state (ListenForEvents g c1) in
  let id1 := uint_succ (lastListener c) in
  let id2 := uint_succ (uint_succ (lastListener c)) in
  id1 <> id2
  /\ eventListeners c2 !! id1 = Some f
  /\ eventListeners c2 !! id2 = Some g.
Proof.
  intros c1 c2 id1 id2.
  assert (id1 <> id2) as Hne by (intros Heq; by apply (uint_succ_neq id1)).
  split; [exact Hne|]. unfold c2, c1. rewrite !ListenForEvents_eq. cbn. fold id1 id2.
  split.
  - rewrite lookup_insert_ne by done. apply lookup_insert_eq.
  - apply lookup_insert_eq.
Qed.

(** ** Invariants of histories *)

Lemma step_lastRequest o c :
  lastRequest (state (step o c))
  = if is_CallAsync o then uint_succ (lastRequest c) else lastRequest c.
Proof.
  destruct o as [dial| | |onEvent|id|f args|id args|data]; unfold step.
  - rewrite bind_eq, Open_eq. destruct (client c); [reflexivity|].
    destruct (dial (socketName c)); reflexivity.
  - rewrite bind_eq, Close_eq. destruct (client c); reflexivity.
  - reflexivity.
  - reflexivity.
  - reflexivity.
  - fold (step (OpCallAsync f args) c). rewrite step_CallAsync_state.
    destruct (CallAsync_state f args c) as [cl ->]. by destruct f.
  - rewrite bind_eq. destruct (SendCommand_state id args c) as (cl & Hst & _).
    destruct (value (SendCommand id args c)); cbn [state fst snd];
      fold (state (SendCommand id args c)); by rewrite Hst.
  - fold (step (OpLine data) c). rewrite step_OpLine_eq.
    destruct (value (checkEvent data c)); [|reflexivity].
    cbn [state fst snd]. rewrite checkResult_eq.
    destruct (accepted data) as [r|]; [|reflexivity].
    destruct (waitingRequests c !! CommandResult.ID r); reflexivity.
Qed.

Lemma step_lastListener o c :
  lastListener (state (step o c))
  = if is_ListenForEvents o then uint_succ (lastListener c) else lastListener c.
Proof.
  destruct o as [dial| | |onEvent|id|f args|id args|data]; unfold step.
  - rewrite bind_eq, Open_eq. destruct (client c); [reflexivity|].
    destruct (dial (socketName c)); reflexivity.
  - rewrite bind_eq, Close_eq. destruct (client c); reflexivity.
  - reflexivity.
  - reflexivity.
  - reflexivity.
  - fold (step (OpCallAsync f args) c). rewrite step_CallAsync_state.
    destruct (CallAsync_state f args c) as [cl ->]. by destruct f.
  - rewrite bind_eq. destruct (SendCommand_state id args c) as (cl & Hst & _).
    destruct (value (SendCommand id args c)); cbn [state fst snd];
      fold (state (SendCommand id args c)); by rewrite Hst.
  - fold (step (OpLine data) c). rewrite step_OpLine_eq.
    destruct (value (checkEvent data c)); [|reflexivity].
    cbn [state fst snd]. rewrite checkResult_eq.
    destruct (accepted data) as [r|]; [|reflexivity].
    destruct (waitingRequests c !! CommandResult.ID r); reflexivity.
Qed.

Lemma uint_succ_mod x : uint_succ (x mod uintMod) = (x + 1) mod uintMod.
Proof. unfold uint_succ. apply N.Div0.add_mod_idemp_l. Qed.

Lemma count_ops_cons (p : op C -> bool) o ops :
  count_ops p (o :: ops) = (if p o then 1 else 0) + count_ops p ops.
Proof. unfold count_ops. cbn. destruct (p o); cbn [length]; lia. Qed.

(** The counters after a history that ran to its end. *)
Lemma run_counters ops c n m :
  value (run ops c) = Ret tt ->
  lastRequest c = n mod uintMod ->
  lastListener c = m mod uintMod ->
  lastRequest (state (run ops c)) = (n + count_ops is_CallAsync ops) mod uintMod
  /\ lastListener (state (run ops c)) = (m + count_ops is_ListenForEvents ops) mod uintMod.
Proof.
  revert c n m. induction ops as [|o ops IH]; intros c n m Hret Hn Hm.
  - cbn. unfold count_ops. cbn. by rewrite !N.add_0_r.
  - revert Hret. rewrite run_cons.
    destruct (value (step o c)) as [[]|msg] eqn:Hstep; [|discriminate].
    cbn [value state fst snd]. fold (value (run ops (state (step o c)))).
    fold (state (run ops (state (step o c)))). intros Hret.
    rewrite !count_ops_cons.
    destruct (IH (state (step o c))
                (n + (if is_CallAsync o then 1 else 0))
                (m + (if is_ListenForEvents o then 1 else 0)) Hret) as [Hr Hl].
    + rewrite step_lastRequest, Hn.
      destruct (is_CallAsync o); [apply uint_succ_mod | by rewrite N.add_0_r].
    + rewrite step_lastListener, Hm.
      destruct (is_ListenForEvents o); [apply uint_succ_mod | by rewrite N.add_0_r].
    + rewrite Hr, Hl. by rewrite !N.add_assoc.
Qed.

(** X13. Ids come one after the other.  After a history of a new
    connection that ran to its end, [lastRequest] is the number of
    [CallAsync] calls so far and [lastListener] the number of
    [ListenForEvents] calls, both modulo 2^64: the n-th request has id n,
    whether or not it had a callback and whether or not it was sent. *)
Theorem ids_count_the_calls (name : string) ops :
  value (run ops (NewConnection name)) = Ret tt ->
  lastRequest (state (run ops (NewConnection name)))
  = count_ops is_CallAsync ops mod uintMod
  /\ lastListener (state (run ops (NewConnection name)))
     = count_ops is_ListenForEvents ops mod uintMod.
Proof.
  intros Hret. apply (run_counters ops (NewConnection name) 0 0 Hret); reflexivity.
Qed.

Lemma step_ids_in_range budget o c :
  ids_in_range ((if is_CallAsync o then 1 else 0) + budget) c ->
  ids_in_range budget (state (step o c)).
Proof.
  intros [Hroom Hkeys]. split.
  - rewrite step_lastRequest. destruct (is_CallAsync o); [|lia].
    unfold uint_succ. rewrite N.mod_small; lia.
  - intros k rq. rewrite step_waitingRequests, step_lastRequest.
    destruct o as [dial| | |onEvent|id|[g|] args|id args|data]; cbn [is_CallAsync] in *;
      try apply Hkeys.
    + unfold uint_succ. rewrite N.mod_small by lia.
      rewrite lookup_insert. case_decide as Hk; [intros _; lia|].
      intros Hrq. specialize (Hkeys _ _ Hrq). lia.
    + unfold uint_succ. rewrite N.mod_small by lia.
      intros Hrq. specialize (Hkeys _ _ Hrq). lia.
    + destruct (delivery data c) as [[rq' r]|]; [|apply Hkeys].
      rewrite lookup_delete. case_decide; [done | apply Hkeys].
Qed.

Lemma run_ids_in_range budget ops c :
  ids_in_range (count_ops is_CallAsync ops + budget) c ->
  ids_in_range budget (state (run ops c)).
Proof.
  revert c. induction ops as [|o ops IH]; intros c Hin.
  - unfold count_ops in Hin. exact Hin.
  - rewrite count_ops_cons, <- N.add_assoc in Hin.
    apply step_ids_in_range in Hin.
    rewrite run_cons. destruct (value (step o c)); cbn [state fst snd].
    + fold (state (run ops (state (step o c)))). by apply IH.
    + destruct Hin as [Hroom Hkeys]. split; [lia | exact Hkeys].
Qed.

(** X14. As long as a new connection has seen fewer than 2^64 calls of
    [CallAsync], every entry of the table sits at an id between 1 and
    [lastRequest], and its closure deletes that very id.  So nothing waits
    at id 0, the id [checkResult] reads from a line without
    [request_id]. *)
Theorem waiting_requests_sit_at_allocated_ids (name : string) ops :
  count_ops is_CallAsync ops < uintMod ->
  let c := state (run ops (NewConnection name)) in
  (forall k rq, waitingRequests c !! k = Some rq ->
     1 <= k <= lastRequest c /\ req_id rq = k)
  /\ waitingRequests c !! 0 = None.
Proof.
  intros Hroom c.
  assert (ids_in_range 0 c) as [_ Hkeys].
  { apply run_ids_in_range. split; [cbn; lia|].
    intros k rq Hk. cbn in Hk. by rewrite lookup_empty in Hk. }
  assert (wf c) as Hwf by apply run_wf, NewConnection_wf.
  split.
  - intros k rq Hk. split; [by apply (Hkeys k rq) | by apply Hwf].
  - destruct (waitingRequests c !! 0) as [rq|] eqn:Hz; [|reflexivity].
    specialize (Hkeys _ _ Hz). lia.
Qed.

(** X15. No method that a caller runs calls a callback or a listener:
    every callback is called by the reader loop, in the step that takes a
    line. *)
Theorem only_the_reader_calls_back o c :
  is_line o = false ->
  Forall (fun e => is_callback e = false) (log (step o c)).
Proof.
  destruct o as [dial| | |onEvent|id|f args|id args|data]; intros Hline;
    try discriminate; unfold step.
  - rewrite bind_eq, Open_eq. destruct (client c); [by repeat constructor|].
    destruct (dial (socketName c)); by repeat constructor.
  - rewrite bind_eq, Close_eq. destruct (client c); by repeat constructor.
  - by repeat constructor.
  - by repeat constructor.
  - by repeat constructor.
  - rewrite bind_eq. pose proof (CallAsync_quiet f args c) as Hq.
    destruct (value (CallAsync f args c)); cbn [log snd]; fold (log (CallAsync f args c));
      rewrite ?app_nil_r; exact Hq.
  - rewrite bind_eq. pose proof (SendCommand_quiet id args c) as Hq.
    destruct (value (SendCommand id args c)); cbn [log snd];
      fold (log (SendCommand id args c)); rewrite ?app_nil_r; exact Hq.
Qed.

Lemma lock_after_app h tr1 tr2 :
  lock_after h (tr1 ++ tr2)
  = match lock_after h tr1 with
    | Some h' => lock_after h' tr2
    | None => None
    end.
Proof.
  revert h. induction tr1 as [|e tr1 IH]; intros h; [reflexivity|].
  destruct e; cbn; try apply IH; destruct h; try reflexivity; apply IH.
Qed.

Lemma lock_after_other h tr :
  Forall (fun e => e <> Lock /\ e <> Unlock) tr -> lock_after h tr = Some h.
Proof.
  induction 1 as [|e tr [Hl Hu] _ IH]; [reflexivity|].
  destruct e; cbn; try exact IH; congruence.
Qed.

(** X16. The mutex is not reentrant, and no step trips over it: a step
    never locks the lock it holds, never unlocks the free lock, and has
    given the lock back when it returns.  (Only the panic of [checkEvent]
    on a [nil] listener ends with the lock held.) *)
Theorem steps_take_and_give_back_the_lock o c :
  exists h,
    lock_after false (log (step o c)) = Some h
    /\ (value (step o c) = Ret tt -> h = false).
Proof.
  assert (forall id args c', lock_after false (log (SendCommand id args c')) = Some false)
    as Hsend.
  { intros id args c'. apply lock_after_other.
    eapply Forall_impl; [apply SendCommand_log|]. intros e [data ->]. by split. }
  destruct o as [dial| | |onEvent|id|f args|id args|data]; unfold step.
  - exists false. split; [|done]. rewrite bind_eq, Open_eq.
    destruct (client c); [reflexivity|]. destruct (dial (socketName c)); reflexivity.
  - exists false. split; [|done]. rewrite bind_eq, Close_eq.
    destruct (client c); reflexivity.
  - by exists false.
  - by exists false.
  - by exists false.
  - exists false. split; [|done]. rewrite bind_eq.
    assert (lock_after false (log (CallAsync f args c)) = Some false) as Hl.
    { rewrite CallAsync_unfold.
      specialize (Hsend (uint_succ (lastRequest c)) args (registered f c)).
      unfold log in *. destruct (SendCommand _ _ _) as [[r c'] tr]. exact Hsend. }
    destruct (value (CallAsync f args c)); cbn [log snd]; fold (log (CallAsync f args c));
      rewrite ?app_nil_r; exact Hl.
  - exists false. split; [|done]. rewrite bind_eq.
    destruct (value (SendCommand id args c)); cbn [log snd];
      fold (log (SendCommand id args c)); rewrite ?app_nil_r; apply Hsend.
  - fold (step (OpLine data) c). rewrite step_OpLine_eq.
    assert (lock_after false (log (checkResult data c)) = Some false) as Hres.
    { rewrite checkResult_eq. destruct (accepted data) as [r|]; [|reflexivity].
      destruct (waitingRequests c !! CommandResult.ID r); reflexivity. }
    rewrite checkEvent_eq. destruct (read_event data) as [| |ev].
    + exists false. split; [exact Hres | done].
    + exists false. split; [reflexivity | done].
    + cbn zeta.
      destruct (forM_notify_any ev c (map fst (map_to_list (eventListeners c))))
        as [_ Hcalls].
      assert (forall h, lock_after h
                (log (forM (map fst (map_to_list (eventListeners c))) (notify ev) c))
              = Some h) as Hquiet.
      { intros h. apply lock_after_other. eapply Forall_impl; [exact Hcalls|].
        intros e (k & g & -> & _). by split. }
      destruct (value (forM _ _ c)) as [[]|msg]; cbn [value state log fst snd].
      * exists false. split; [|done].
        cbn [app lock_after]. rewrite <- app_assoc, !lock_after_app, Hquiet. exact Hres.
      * exists true. split; [|discriminate]. cbn [lock_after]. apply Hquiet.
Qed.

(** What [listen] does depends on the stream it reads. *)
Lemma listen_eq lines c :
  listen lines c
  = match client c with
    | None => (Panic nilDereference, c, [])
    | Some _ => (forM lines (fun data => checkEvent data ;; checkResult data) ;;
                 Close ;;
                 ret tt) c
    end.
Proof.
  unfold listen at 1, bind at 1, get. cbn. destruct (client c); [|reflexivity].
  by destruct ((forM lines _ ;; Close ;; ret tt) c) as [[r c2] t2].
Qed.

Lemma lines_are_lines (lines : list string) :
  forallb is_line (map (@OpLine C) lines) = true.
Proof. induction lines as [|d lines IH]; [reflexivity | exact IH]. Qed.

(** The loop of [listen] is the history of its lines. *)
Lemma listen_loop_eq lines c :
  forM lines (fun data => checkEvent data ;; checkResult data) c
  = run (map OpLine lines) c.
Proof.
  revert c. induction lines as [|d lines IH]; intros c; [reflexivity|].
  cbn [map]. rewrite run_cons, forM_cons, bind_eq.
  change (checkEvent d ;; checkResult d) with (step (OpLine d)).
  destruct (value (step (OpLine d) c)); [|reflexivity].
  cbn zeta. by rewrite IH.
Qed.

Lemma run_lines_only_remove ops c :
  forallb is_line ops = true ->
  waitingRequests (state (run ops c)) ⊆ waitingRequests c
  /\ eventListeners (state (run ops c)) = eventListeners c
  /\ lastRequest (state (run ops c)) = lastRequest c
  /\ lastListener (state (run ops c)) = lastListener c.
Proof.
  revert c. induction ops as [|o ops IH]; intros c Hops; [done|].
  cbn in Hops. apply andb_prop in Hops as [Ho Hops].
  assert (waitingRequests (state (step o c)) ⊆ waitingRequests c
          /\ eventListeners (state (step o c)) = eventListeners c
          /\ lastRequest (state (step o c)) = lastRequest c
          /\ lastListener (state (step o c)) = lastListener c) as (Hw & He & Hr & Hl).
  { rewrite step_waitingRequests, step_eventListeners, step_lastRequest, step_lastListener.
    destruct o; try discriminate. cbn. repeat split.
    destruct (delivery data c) as [[rq r]|]; [apply delete_subseteq | done]. }
  rewrite run_cons. destruct (value (step o c)); cbn [state fst snd]; [|done].
  fold (state (run ops (state (step o c)))).
  destruct (IH (state (step o c)) Hops) as (Hw' & He' & Hr' & Hl').
  repeat split; [by etrans | congruence..].
Qed.

(** X17. The reader loop only ever takes entries out of the table of
    waiting requests: after [listen], whatever the lines were, every entry
    of the table was there before, and the registry of listeners and both
    counters are untouched. *)
Theorem reader_only_removes_requests lines c :
  waitingRequests (state (listen lines c)) ⊆ waitingRequests c
  /\ eventListeners (state (listen lines c)) = eventListeners c
  /\ lastRequest (state (listen lines c)) = lastRequest c
  /\ lastListener (state (listen lines c)) = lastListener c.
Proof.
  pose proof (run_lines_only_remove (map OpLine lines) c (lines_are_lines lines)) as Hrun.
  rewrite listen_eq. destruct (client c); [|done].
  rewrite bind_eq, listen_loop_eq.
  destruct (value (run (map OpLine lines) c)); cbn [state fst snd]; [|exact Hrun].
  rewrite bind_eq.
  destruct (Close_same_tables (state (run (map OpLine lines) c))) as (Hw & He & Hr & Hl).
  destruct Hrun as (Hw' & He' & Hr' & Hl').
  destruct (value (Close _)); cbn [state fst snd];
    change (state (ret tt ?x)) with x;
    fold (state (Close (state (run (map OpLine lines) c))));
    (repeat split; [by rewrite Hw | congruence..]).
Qed.

Lemma run_lines_client ops c :
  forallb is_line ops = true -> client (state (run ops c)) = client c.
Proof.
  revert c. induction ops as [|o ops IH]; intros c Hops; [done|].
  cbn in Hops. apply andb_prop in Hops as [Ho Hops].
  assert (client (state (step o c)) = client c) as Hstep.
  { destruct o; try discriminate. rewrite step_OpLine_eq.
    destruct (value (checkEvent data c)); [|reflexivity].
    cbn [state fst snd]. rewrite checkResult_eq.
    destruct (accepted data) as [r|]; [|reflexivity].
    destruct (waitingRequests c !! CommandResult.ID r); reflexivity. }
  rewrite run_cons. destruct (value (step o c)); cbn [state fst snd]; [|done].
  fold (state (run ops (state (step o c)))). by rewrite IH.
Qed.

(** C7. [IsClosed] is true on a new connection, true after [Close], and
    false after an [Open] that returned no error.  The reader loop of an
    open connection comes to its end when no line makes the dispatch
    panic, and [IsClosed] is true after it. *)
Theorem IsClosed_life_cycle (name : string) c (lines : list string) dial :
  value (IsClosed (NewConnection name : Connection C)) = Ret true
  /\ value (IsClosed (state (Close c))) = Ret true
  /\ (forall cl,
      client c = Some cl ->
      value (run (map OpLine lines) c) = Ret tt ->
      value (listen lines c) = Ret tt
      /\ value (IsClosed (state (listen lines c))) = Ret true)
  /\ (value (Open dial c) = Ret None ->
      value (IsClosed (state (Open dial c))) = Ret false).
Proof.
  split; [reflexivity|]. split.
  { rewrite IsClosed_value. by rewrite Close_client. }
  split.
  - intros cl Hcl Hrun.
    pose proof (run_lines_client (map OpLine lines) c (lines_are_lines lines)) as Hclient.
    rewrite IsClosed_value, listen_eq, Hcl, bind_eq, listen_loop_eq, Hrun. cbn zeta.
    rewrite bind_eq, Close_eq, Hclient, Hcl. split; reflexivity.
  - rewrite IsClosed_value.
    unfold Open, defer, bind, lock, unlock, emit, get, modify, ret, value, state. cbn.
    destruct (client c) eqn:Hc; cbn; [discriminate|].
    destruct (dial (socketName c)); cbn; [reflexivity | discriminate].
Qed.

(** X26. When no line makes it panic, the reader loop of an open
    connection dispatches its lines in order and then closes the stream,
    once, as its last act; the error of that [Close] is dropped. *)
Theorem reader_closes_the_stream_at_its_end lines c cl :
  client c = Some cl ->
  value (run (map OpLine lines) c) = Ret tt ->
  value (listen lines c) = Ret tt
  /\ log (listen lines c) = log (run (map OpLine lines) c) ++ [Lock; CloseConn; Unlock]
  /\ client (state (listen lines c)) = None.
Proof.
  intros Hcl Hrun.
  pose proof (run_lines_client (map OpLine lines) c (lines_are_lines lines)) as Hclient.
  rewrite listen_eq, Hcl, bind_eq, listen_loop_eq, Hrun. cbn zeta.
  rewrite bind_eq, Close_eq, Hclient, Hcl. repeat split.
Qed.

(** ** Lines *)

Lemma Event_store_Name e err m :
  String.eqb (foldName m.1) "event" = false ->
  Event.Name (Event.store (e, err) m).1 = Event.Name e.
Proof.
  destruct m as [k v]. cbn [fst]. intros Hk. unfold Event.store. rewrite Hk.
  repeat match goal with
         | |- context [if ?b then _ else _] => destruct b
         end;
    try destruct (store_string v _); try destruct (store_uint v _);
    try destruct (store_interface v _); reflexivity.
Qed.

Lemma Event_fold_Name ms (acc : Event.t * error) :
  has_member "event" ms = false ->
  Event.Name (fold_left Event.store ms acc).1 = Event.Name acc.1.
Proof.
  revert acc. induction ms as [|m ms IH]; intros [e err] Hms; [reflexivity|].
  cbn in Hms. apply orb_false_elim in Hms as [Hm Hms]. cbn [fold_left].
  by rewrite IH, Event_store_Name.
Qed.

Lemma CommandResult_store_Status r err m :
  String.eqb (foldName m.1) "error" = false ->
  CommandResult.Status (CommandResult.store (r, err) m).1 = CommandResult.Status r.
Proof.
  destruct m as [k v]. cbn [fst]. intros Hk. unfold CommandResult.store. rewrite Hk.
  repeat match goal with
         | |- context [if ?b then _ else _] => destruct b
         end;
    try destruct (store_uint v _); try destruct (store_interface v _); reflexivity.
Qed.

Lemma CommandResult_fold_Status ms (acc : CommandResult.t * error) :
  has_member "error" ms = false ->
  CommandResult.Status (fold_left CommandResult.store ms acc).1
  = CommandResult.Status acc.1.
Proof.
  revert acc. induction ms as [|m ms IH]; intros [r err] Hms; [reflexivity|].
  cbn in Hms. apply orb_false_elim in Hms as [Hm Hms]. cbn [fold_left].
  by rewrite IH, CommandResult_store_Status.
Qed.

(** X18. What tells an event from a result is one member each: a line
    that is a JSON object without a member named "event" (in any case) is
    no event for [checkEvent], and one without a member named "error" is
    no result for [checkResult], whatever else the object holds.  Neither
    function does anything then. *)
Theorem lines_are_told_apart_by_one_member data ms c :
  parse data = Some (JObject ms) ->
  (has_member "event" ms = false -> checkEvent data c = (Ret tt, c, []))
  /\ (has_member "error" ms = false -> checkResult data c = (Ret tt, c, [])).
Proof.
  intros Hparse. split; intros Hms.
  - rewrite checkEvent_eq. unfold read_event, Event.Unmarshal. rewrite Hparse.
    match goal with
    | |- context [fold_left Event.store ms ?acc] =>
        pose proof (Event_fold_Name ms acc Hms) as Hname;
        destruct (fold_left Event.store ms acc) as [e' [err|]]; [reflexivity|]
    end.
    cbn in Hname. by rewrite Hname.
  - rewrite checkResult_eq. unfold accepted, CommandResult.Unmarshal. rewrite Hparse.
    match goal with
    | |- context [fold_left CommandResult.store ms ?acc] =>
        pose proof (CommandResult_fold_Status ms acc Hms) as Hst;
        destruct (fold_left CommandResult.store ms acc) as [r' [err|]]; [reflexivity|]
    end.
    cbn in Hst. by rewrite Hst.
Qed.

(** X19. A line that is not JSON, or whose JSON value is an array, a
    string, a number or a boolean, is skipped by the reader loop: no
    effect, no change, no error. *)
Theorem lines_that_are_no_objects_are_skipped data c :
  is_object_or_null (parse data) = false ->
  step (OpLine data) c = (Ret tt, c, []).
Proof.
  intros Hno. rewrite step_OpLine_eq, checkEvent_eq, checkResult_eq.
  unfold read_event, accepted, Event.Unmarshal, CommandResult.Unmarshal.
  destruct (parse data) as [[]|]; try discriminate; reflexivity.
Qed.

(** X20. The JSON text [null] as a line stops the reader loop with a
    panic on the [nil] event: the lines after it are not read and the
    connection is not closed. *)
Theorem null_line_stops_the_reader data rest c :
  parse data = Some JNull ->
  listen (data :: rest) c = (Panic nilDereference, c, []).
Proof.
  intros Hparse. rewrite listen_eq. destruct (client c); [|reflexivity].
  rewrite bind_eq, listen_loop_eq. cbn [map].
  rewrite run_cons, step_OpLine_eq, checkEvent_eq.
  unfold read_event, Event.Unmarshal. rewrite Hparse. reflexivity.
Qed.

Lemma notify_eq ev k c :
  notify ev k c
  = match eventListeners c !! k with
    | Some (Some f) => (Ret tt, c, [CallListener f ev])
    | _ => (Panic nilDereference, c, [])
    end.
Proof.
  unfold notify, bind, get, emit, panic. cbn.
  by destruct (eventListeners c !! k) as [[f|]|].
Qed.

Lemma forM_notify_nil ev c ks k :
  In k ks -> eventListeners c !! k = Some None ->
  value (forM ks (notify ev) c) = Panic nilDereference.
Proof.
  intros Hin Hk. induction ks as [|k0 ks IH]; [destruct Hin|].
  rewrite forM_cons, bind_eq, notify_eq.
  destruct (eventListeners c !! k0) as [[f|]|] eqn:Hk0; try reflexivity.
  cbn [value state log fst snd]. apply IH.
  destruct Hin as [->|Hin]; [congruence | exact Hin].
Qed.

(** X21. [ListenForEvents] accepts [nil].  With a [nil] in the registry,
    every event makes [checkEvent] panic, and it panics holding the
    lock. *)
Theorem nil_listener_panics_under_the_lock data ev k c :
  eventListeners c !! k = Some None ->
  read_event data = Announced ev ->
  value (checkEvent data c) = Panic nilDereference
  /\ lock_after false (log (checkEvent data c)) = Some true.
Proof.
  intros Hk Hev. rewrite checkEvent_eq, Hev. cbn zeta.
  assert (In k (map fst (map_to_list (eventListeners c)))) as Hin.
  { apply in_map_iff. exists (k, None). split; [reflexivity|].
    apply list_elem_of_In. by apply elem_of_map_to_list. }
  rewrite (forM_notify_nil ev c _ k Hin Hk). split; [reflexivity|].
  cbn [log snd lock_after]. apply lock_after_other.
  destruct (forM_notify_any ev c (map fst (map_to_list (eventListeners c)))) as [_ Hcalls].
  eapply Forall_impl; [exact Hcalls|]. intros e (k' & g & -> & _). by split.
Qed.

Lemma checkEvent_announces data ev c :
  no_nil_listener c = true ->
  read_event data = Announced ev ->
  exists fs : list (N * userFunc),
    map_to_list (eventListeners c) = map (fun kf => (kf.1, Some kf.2)) fs
    /\ checkEvent data c
       = (Ret tt, c, Lock :: map (fun kf => CallListener kf.2 ev) fs ++ [Unlock]).
Proof.
  intros Hfun Hev.
  destruct (functions_of_listeners (map_to_list (eventListeners c)) Hfun) as [fs Hfs].
  exists fs. split; [exact Hfs|].
  assert (forM (map fst (map_to_list (eventListeners c))) (notify ev) c
          = (Ret tt, c, map (fun kf => CallListener kf.2 ev) fs)) as Hcalls.
  { rewrite Hfs, map_map. cbn [fst].
    change (map (fun x : N * userFunc => x.1) fs) with (map fst fs).
    apply forM_notify_all. intros k f Hin.
    apply elem_of_map_to_list.
    assert ((k, Some f) ∈ map (fun kf : N * userFunc => (kf.1, Some kf.2)) fs) as Hin'.
    { apply list_elem_of_In, in_map_iff. by exists (k, f). }
    rewrite <- Hfs in Hin'. exact Hin'. }
  rewrite checkEvent_eq, Hev. cbn zeta. by rewrite Hcalls.
Qed.

(** X22. Any event reaches every listener.  When no [nil] is registered
    and a line decodes to an event with a name, [checkEvent] calls the
    listeners [fs] that make up the registry, one call for each entry and
    each with that event, between [Lock] and [Unlock], and changes
    nothing; so a listener that is in the registry is called. *)
Theorem every_event_reaches_every_listener data ev c k f :
  no_nil_listener c = true ->
  read_event data = Announced ev ->
  eventListeners c !! k = Some (Some f) ->
  (exists fs : list (N * userFunc),
     map_to_list (eventListeners c) = map (fun kf => (kf.1, Some kf.2)) fs
     /\ checkEvent data c
        = (Ret tt, c, Lock :: map (fun kf => CallListener kf.2 ev) fs ++ [Unlock]))
  /\ In (CallListener f ev) (log (checkEvent data c)).
Proof.
  intros Hfun Hev Hk.
  destruct (checkEvent_announces data ev c Hfun Hev) as (fs & Hfs & Heq).
  split; [by exists fs|].
  rewrite Heq. cbn [log snd]. right. apply in_or_app. left.
  apply in_map_iff. exists (k, f). split; [reflexivity|].
  assert ((k, Some f) ∈ map_to_list (eventListeners c)) as Hin
    by by apply elem_of_map_to_list.
  apply list_elem_of_In in Hin.
  assert (In (k, Some f) (map (fun kf : N * userFunc => (kf.1, Some kf.2)) fs)) as Hin'.
  { rewrite <- Hfs. exact Hin. }
  apply in_map_iff in Hin' as ([k' f'] & [= <- <-] & Hin'). exact Hin'.
Qed.

(** X23. The two dispatches do not exclude one another.  A line that
    decodes to an event with a name and to a result with a status, with a
    request waiting at the id of the result, goes first to every listener
    and then to the callback of the request. *)
Theorem line_can_be_event_and_result data ev r rq c :
  no_nil_listener c = true ->
  read_event data = Announced ev ->
  accepted data = Some r ->
  waitingRequests c !! CommandResult.ID r = Some rq ->
  exists fs : list (N * userFunc),
    map_to_list (eventListeners c) = map (fun kf => (kf.1, Some kf.2)) fs
    /\ log (step (OpLine data) c)
       = (Lock :: map (fun kf => CallListener kf.2 ev) fs ++ [Unlock])
         ++ [Lock; Unlock; CallCompletion (req_f rq) (reply r).1 (reply r).2;
             Lock; Unlock].
Proof.
  intros Hfun Hev Hacc Hrq.
  destruct (checkEvent_announces data ev c Hfun Hev) as (fs & Hfs & Heq).
  exists fs. split; [exact Hfs|].
  rewrite step_OpLine_eq, Heq, checkResult_eq, Hacc, Hrq. reflexivity.
Qed.

(** ** The wrappers of [Call] *)

Lemma CallAsync_on_closed f args c :
  client c = None ->
  CallAsync f args c
  = (Ret (Some "trying to send command on closed mpv client"%string),
     registered f c, [Lock; Unlock]).
Proof.
  intros Hnil. rewrite CallAsync_unfold.
  assert (client (registered f c) = None) as Hreg by (by destruct f).
  unfold SendCommand, bind, get. cbn -[registered]. by rewrite Hreg.
Qed.

(** X24. On a connection that is not open, [Set] and [Get] come back at
    once and report no error (the [nil] they get from [Call]), and the
    closure of [Call] stays in the table at the id that was taken. *)
Theorem Set_and_Get_on_closed property v c :
  client c = None ->
  let id := uint_succ (lastRequest c) in
  value (Set_ property v c) = Ret (Returned None)
  /\ value (Get property c) = Ret (Returned (JNull, None))
  /\ waitingRequests (state (Set_ property v c)) !! id = Some (Request CallFunc id)
  /\ waitingRequests (state (Get property c)) !! id = Some (Request CallFunc id).
Proof.
  intros Hnil id. unfold Set_, Get, Call.
  rewrite !bind_eq, !(CallAsync_on_closed _ _ c Hnil). cbn -[registered].
  repeat split; cbn; apply lookup_insert_eq.
Qed.

End Further.

(** * The further properties at work on a scripted stream *)

Lemma Close_returns_stream_error_witness :
  client half = Some (Scripted [None; Some "broken pipe"%string] (Some "already closed"%string))
  /\ value (Close half) = Ret (Some "already closed"%string)
  /\ value (IsClosed (state (Close half))) = Ret true.
Proof.
  split; [reflexivity|].
  destruct (Close_returns_stream_error half
              (Scripted [None; Some "broken pipe"%string] (Some "already closed"%string))
              dial_ok eq_refl) as (Heq & Hclosed & _).
  split; [by rewrite Heq | exact Hclosed].
Defined.

Lemma Open_twice_witness :
  value (Open dial_ok fresh) = Ret None
  /\ Open dial_refused opened = (Ret (Some "already open"%string), opened, [Lock; Unlock]).
Proof.
  split; [reflexivity|]. apply (Open_twice dial_ok dial_refused fresh). reflexivity.
Defined.

Lemma SendCommand_writes_one_line_witness :
  client opened = Some (Scripted [] None)
  /\ Marshal (mkRequest cycle_pause 1) = inl (dq "{'command':['cycle','pause'],'request_id':1}")
  /\ SendCommand 1 cycle_pause opened
     = (Ret None, opened,
        [WriteConn (dq "{'command':['cycle','pause'],'request_id':1}"); WriteConn newline]).
Proof.
  split; [reflexivity|]. split; [vm_compute; reflexivity|].
  apply (SendCommand_writes_one_line 1 cycle_pause opened (Scripted [] None)
           (dq "{'command':['cycle','pause'],'request_id':1}")
           (Scripted [] None) (Scripted [] None));
    [reflexivity | vm_compute; reflexivity | reflexivity | reflexivity].
Defined.

Lemma SendCommand_write_failure_witness :
  value (SendCommand 1 cycle_pause broken) = Ret (Some "can't write command: broken pipe"%string)
  /\ log (SendCommand 1 cycle_pause broken)
     = [WriteConn (dq "{'command':['cycle','pause'],'request_id':1}")]
  /\ value (SendCommand 1 cycle_pause half)
     = Ret (Some "can't terminate command: broken pipe"%string).
Proof.
  destruct (SendCommand_write_failure 1 cycle_pause broken
              (Scripted [Some "broken pipe"%string] None)
              (dq "{'command':['cycle','pause'],'request_id':1}") eq_refl)
    as [Hfirst _]; [vm_compute; reflexivity|].
  destruct (SendCommand_write_failure 1 cycle_pause half
              (Scripted [None; Some "broken pipe"%string] (Some "already closed"%string))
              (dq "{'command':['cycle','pause'],'request_id':1}") eq_refl)
    as [_ Hsecond]; [vm_compute; reflexivity|].
  rewrite (Hfirst (Scripted [] None) "broken pipe"%string eq_refl).
  rewrite (Hsecond (Scripted [Some "broken pipe"%string] (Some "already closed"%string))
             (Scripted [] (Some "already closed"%string)) "broken pipe"%string
             eq_refl eq_refl).
  repeat split.
Defined.

Lemma SendCommand_encode_failure_witness :
  client opened = Some (Scripted [] None)
  /\ Marshal (mkRequest [Val (JString "set_property"); Unsupported "chan int"] 1)
     = inr "json: unsupported type: chan int"%string
  /\ SendCommand 1 [Val (JString "set_property"); Unsupported "chan int"] opened
     = (Ret (Some "can't encode command: json: unsupported type: chan int"%string),
        opened, []).
Proof.
  split; [reflexivity|]. split; [reflexivity|].
  apply (SendCommand_encode_failure 1 _ opened (Scripted [] None)); reflexivity.
Defined.


Lemma request_then_reply_witness :
  waitingRequests opened !! 1 = None
  /\ accepted (dq "{'error':'success','data':true,'request_id':1}")
     = Some (CommandResult.mk "success" (JBool true) 1)
  /\ completions_of (UserFunc 1)
       (log (step (OpLine (dq "{'error':'success','data':true,'request_id':1}"))
               (state (CallAsync (Some (UserFunc 1)) cycle_pause opened))))
     = [(JBool true, None)]
  /\ waitingRequests
       (state (step (OpLine (dq "{'error':'success','data':true,'request_id':1}"))
                 (state (CallAsync (Some (UserFunc 1)) cycle_pause opened))))
     = waitingRequests opened.
Proof.
  split; [reflexivity|]. split; [vm_compute; reflexivity|].
  apply (request_then_reply (UserFunc 1) cycle_pause opened
           (dq "{'error':'success','data':true,'request_id':1}")
           (CommandResult.mk "success" (JBool true) 1));
    [reflexivity | vm_compute; reflexivity | reflexivity | vm_compute; reflexivity].
Defined.

Lemma listen_then_cancel_witness :
  eventListeners fresh !! 1 = None
  /\ value (ListenForEvents (Some 11%nat) fresh) = Ret 1
  /\ eventListeners (state (cancel 1 (state (ListenForEvents (Some 11%nat) fresh))))
     = eventListeners fresh.
Proof.
  split; [reflexivity|]. apply (listen_then_cancel (Some 11%nat) fresh). reflexivity.
Defined.

Lemma ids_count_the_calls_witness :
  value (run busy_history fresh) = Ret tt
  /\ lastRequest (state (run busy_history fresh)) = 3
  /\ lastListener (state (run busy_history fresh)) = 2.
Proof.
  split; [vm_compute; reflexivity|].
  apply (ids_count_the_calls socket busy_history). vm_compute. reflexivity.
Defined.

Lemma waiting_requests_sit_at_allocated_ids_witness :
  count_ops is_CallAsync busy_history < uintMod
  /\ waitingRequests (state (run busy_history fresh)) !! 0 = None.
Proof.
  split; [vm_compute; reflexivity|].
  apply (waiting_requests_sit_at_allocated_ids socket busy_history).
  vm_compute. reflexivity.
Defined.

Lemma only_the_reader_calls_back_witness :
  is_line (OpCallAsync (Some (UserFunc 1)) cycle_pause : op scripted) = false
  /\ Forall (fun e => is_callback e = false)
       (log (step (OpCallAsync (Some (UserFunc 1)) cycle_pause) waiting_at_7)).
Proof.
  split; [reflexivity|]. apply only_the_reader_calls_back. reflexivity.
Defined.

Lemma lines_are_told_apart_by_one_member_witness :
  parse (dq "{'Reason':'eof','data':1}")
  = Some (JObject [("Reason"%string, JString "eof"); ("data"%string, JNumber "1")])
  /\ checkEvent (dq "{'Reason':'eof','data':1}") two_listeners = (Ret tt, two_listeners, [])
  /\ checkResult (dq "{'Reason':'eof','data':1}") waiting_at_7 = (Ret tt, waiting_at_7, []).
Proof.
  assert (parse (dq "{'Reason':'eof','data':1}")
          = Some (JObject [("Reason"%string, JString "eof"); ("data"%string, JNumber "1")]))
    as Hparse by (vm_compute; reflexivity).
  split; [exact Hparse|]. split.
  - apply (lines_are_told_apart_by_one_member _ _ two_listeners Hparse). reflexivity.
  - apply (lines_are_told_apart_by_one_member _ _ waiting_at_7 Hparse). reflexivity.
Defined.

Lemma lines_that_are_no_objects_are_skipped_witness :
  is_object_or_null (parse (dq "['pause', 1")) = false
  /\ is_object_or_null (parse (dq "['pause', 1]")) = false
  /\ step (OpLine (dq "['pause', 1")) two_listeners = (Ret tt, two_listeners, [])
  /\ step (OpLine (dq "['pause', 1]")) two_listeners = (Ret tt, two_listeners, []).
Proof.
  split; [vm_compute; reflexivity|]. split; [vm_compute; reflexivity|].
  split; apply lines_that_are_no_objects_are_skipped; vm_compute; reflexivity.
Defined.

Lemma null_line_stops_the_reader_witness :
  parse " null " = Some JNull
  /\ listen [" null "%string; dq "{'event':'pause'}"] opened
     = (Panic nilDereference, opened, []).
Proof.
  split; [vm_compute; reflexivity|].
  apply null_line_stops_the_reader. vm_compute. reflexivity.
Defined.

Lemma nil_listener_panics_under_the_lock_witness :
  eventListeners with_nil_listener !! 1 = Some None
  /\ read_event (dq "{'event':'pause'}") = Announced pauseEvent
  /\ value (checkEvent (dq "{'event':'pause'}") with_nil_listener) = Panic nilDereference
  /\ lock_after false (log (checkEvent (dq "{'event':'pause'}") with_nil_listener))
     = Some true.
Proof.
  split; [reflexivity|]. split; [vm_compute; reflexivity|].
  apply (nil_listener_panics_under_the_lock _ pauseEvent 1 with_nil_listener);
    [reflexivity | vm_compute; reflexivity].
Defined.

Lemma every_event_reaches_every_listener_witness :
  no_nil_listener two_listeners = true
  /\ eventListeners two_listeners !! 1 = Some (Some 11%nat)
  /\ In (CallListener 11%nat pauseEvent)
       (log (checkEvent (dq "{'event':'pause'}") two_listeners)).
Proof.
  split; [vm_compute; reflexivity|]. split; [reflexivity|].
  apply (every_event_reaches_every_listener _ pauseEvent two_listeners 1 11%nat);
    [vm_compute; reflexivity | vm_compute; reflexivity | reflexivity].
Defined.

Lemma line_can_be_event_and_result_witness :
  no_nil_listener listening_and_waiting = true
  /\ waitingRequests listening_and_waiting !! 7 = Some (Request (UserFunc 1) 7)
  /\ exists fs : list (N * userFunc),
       map_to_list (eventListeners listening_and_waiting)
       = map (fun kf => (kf.1, Some kf.2)) fs
       /\ log (step (OpLine end_file_line) listening_and_waiting)
          = (Lock
             :: map (fun kf =>
                       CallListener kf.2
                         (Event.mk "end-file" "error" EmptyString EmptyString EmptyString 0
                            JNull "loading failed")) fs
             ++ [Unlock])
            ++ [Lock; Unlock;
                CallCompletion (UserFunc 1) JNull (Some "mpv error: loading failed"%string);
                Lock; Unlock].
Proof.
  split; [vm_compute; reflexivity|]. split; [reflexivity|].
  apply (line_can_be_event_and_result end_file_line
           (Event.mk "end-file" "error" EmptyString EmptyString EmptyString 0
              JNull "loading failed")
           (CommandResult.mk "loading failed" JNull 7) (Request (UserFunc 1) 7)
           listening_and_waiting);
    [vm_compute; reflexivity | vm_compute; reflexivity | vm_compute; reflexivity
    | reflexivity].
Defined.

Lemma Set_and_Get_on_closed_witness :
  client fresh = None
  /\ value (Set_ "pause" (Val (JBool true)) fresh) = Ret (Returned None)
  /\ value (Get "pause" fresh) = Ret (Returned (JNull, None)).
Proof.
  split; [reflexivity|].
  destruct (Set_and_Get_on_closed "pause" (Val (JBool true)) fresh eq_refl)
    as (Hset & Hget & _).
  split; [exact Hset | exact Hget].
Defined.

Lemma IsClosed_life_cycle_witness :
  client listening_and_waiting = Some (Scripted [] None)
  /\ value (run (map OpLine [dq "{'event':'pause'}";
                             dq "{'error':'success','data':50,'request_id':7}"])
              listening_and_waiting) = Ret tt
  /\ value (Open dial_ok fresh) = Ret None
  /\ value (listen [dq "{'event':'pause'}";
                    dq "{'error':'success','data':50,'request_id':7}"]
              listening_and_waiting) = Ret tt
  /\ value (IsClosed (state (listen [dq "{'event':'pause'}";
                                     dq "{'error':'success','data':50,'request_id':7}"]
                               listening_and_waiting))) = Ret true
  /\ value (IsClosed (state (Open dial_ok fresh))) = Ret false.
Proof.
  assert (value (run (map OpLine [dq "{'event':'pause'}";
                                  dq "{'error':'success','data':50,'request_id':7}"])
                   listening_and_waiting) = Ret tt) as Hrun
    by (vm_compute; reflexivity).
  assert (value (Open dial_ok fresh) = Ret None) as Ho by reflexivity.
  destruct (IsClosed_life_cycle socket listening_and_waiting
              [dq "{'event':'pause'}"; dq "{'error':'success','data':50,'request_id':7}"]
              dial_ok) as (_ & _ & Hlisten & _).
  destruct (IsClosed_life_cycle socket fresh [] dial_ok) as (_ & _ & _ & Hopen).
  destruct (Hlisten (Scripted [] None) eq_refl Hrun) as [Hret Hclosed].
  split; [reflexivity|]. split; [exact Hrun|]. split; [exact Ho|].
  split; [exact Hret|]. split; [exact Hclosed | exact (Hopen Ho)].
Defined.

Lemma reader_closes_the_stream_at_its_end_witness :
  client opened = Some (Scripted [] None)
  /\ value (run (map OpLine [dq "{'event':'pause'}"; dq "{'foo':1}"]) opened) = Ret tt
  /\ log (listen [dq "{'event':'pause'}"; dq "{'foo':1}"] opened)
     = [Lock; Unlock; Lock; CloseConn; Unlock]
  /\ client (state (listen [dq "{'event':'pause'}"; dq "{'foo':1}"] opened)) = None.
Proof.
  split; [reflexivity|]. split; [vm_compute; reflexivity|].
  destruct (reader_closes_the_stream_at_its_end
              [dq "{'event':'pause'}"; dq "{'foo':1}"] opened (Scripted [] None) eq_refl)
    as (_ & Hlog & Hclient); [vm_compute; reflexivity|].
  split; [rewrite Hlog; vm_compute; reflexivity | exact Hclient].
Defined.
